(** * The scoring engine and HTTP handler of [src/server.js]

    A shallow embedding of [scoreEvents] and of the request handler, over the
    values [JSON.parse] can produce.

    Reading of the data:
    - a JavaScript number is [NaN], an infinity ([Inf]) or a finite double,
      read as the real it denotes ([Fin r]). The range of the doubles is
      represented: a result whose magnitude reaches [huge] is an infinity, and
      a product, quotient or power whose magnitude is at most [tiny] is 0.
      Inside the range results are exact: the rounding to 53 bits and the
      sign of zero are not represented. What is stated of the recency factor
      is what rounding to the nearest double keeps: an order that is not
      strict, the values at ages where the power is a double, and bounds
      that hold with a margin;
    - a [string] is a sequence of characters, one [ascii] per character (code
      points below 256);
    - an exception is a [Throw]; every function that can raise returns a
      [completion];
    - the two conversions of the language between numbers and their text
      ([Number::toString], [StringToNumber]) are fields of a [Host] record,
      and every statement below holds for every host;
    - writes to the console are not represented (what the logging block can
      raise is). *)

From Stdlib Require Import Reals Lra Lia ZArith List String Ascii Bool Permutation Sorted.
From Stdlib Require DecimalString DecimalPos.
Import ListNotations.

Open Scope string_scope.
Open Scope list_scope.

(** ** Numbers *)

Inductive number : Type :=
| NaN
| Inf (negative : bool)
| Fin (r : R).

(** The range of the doubles. A result of magnitude [huge] or more rounds to
    an infinity; one of magnitude [tiny] or less rounds to 0 (at [tiny]
    itself, half of the least positive double, the tie goes to 0). *)
Definition huge : R := 2 ^ 1024 - 2 ^ 970.

Definition tiny : R := / 2 ^ 1075.

(** A sum or difference: exact where it is small, an infinity where it is
    out of range. *)
Definition overflow (r : R) : number :=
  if Rle_dec huge r then Inf false
  else if Rle_dec r (- huge) then Inf true
  else Fin r.

(** A product, quotient or power: it also underflows to 0. *)
Definition clip (r : R) : number :=
  if Rle_dec huge r then Inf false
  else if Rle_dec r (- huge) then Inf true
  else if Rle_dec (- tiny) r
       then if Rle_dec r tiny then Fin 0 else Fin r
       else Fin r.

Definition isNegative (r : R) : bool := if Rlt_dec r 0 then true else false.

Definition nadd (a b : number) : number :=
  match a, b with
  | NaN, _ | _, NaN => NaN
  | Inf s, Inf s' => if Bool.eqb s s' then Inf s else NaN
  | Inf s, Fin _ | Fin _, Inf s => Inf s
  | Fin x, Fin y => overflow (x + y)
  end.

Definition nsub (a b : number) : number :=
  match a, b with
  | NaN, _ | _, NaN => NaN
  | Inf s, Inf s' => if Bool.eqb s s' then NaN else Inf s
  | Inf s, Fin _ => Inf s
  | Fin _, Inf s => Inf (negb s)
  | Fin x, Fin y => overflow (x - y)
  end.

Definition nmul (a b : number) : number :=
  match a, b with
  | NaN, _ | _, NaN => NaN
  | Inf s, Inf s' => Inf (xorb s s')
  | Inf s, Fin y | Fin y, Inf s =>
      if Req_dec_T y 0 then NaN else Inf (xorb s (isNegative y))
  | Fin x, Fin y => clip (x * y)
  end.

(** [/]: the source divides by the non-zero literals 86400 and 7 only. *)
Definition ndiv (a b : number) : number :=
  match a, b with
  | NaN, _ | _, NaN => NaN
  | Inf _, Inf _ => NaN
  | Inf s, Fin y => Inf (xorb s (isNegative y))
  | Fin _, Inf _ => Fin 0
  | Fin x, Fin y =>
      if Req_dec_T y 0
      then if Req_dec_T x 0 then NaN else Inf (isNegative x)
      else clip (x / y)
  end.

(** [Math.pow(base, exponent)] for a base that is a positive finite number
    (the source's base is the literal 0.5). A [NaN] exponent gives [NaN] and
    the exponent 0 gives 1, whatever the base. An infinite exponent gives
    [NaN] for the base 1, and otherwise 0 or [Infinity], by the side of 1 the
    base is on. A finite exponent gives the real power, which underflows to 0
    and overflows to [Infinity]. The cases of a base that is [NaN], infinite,
    zero or negative under an exponent other than 0 and [NaN], which the
    source never passes, are not translated: they are [NaN] here, and no
    statement uses them. *)
Definition Math_pow (base exponent : number) : number :=
  match exponent with
  | NaN => NaN
  | Fin e =>
      if Req_dec_T e 0 then Fin 1
      else match base with
           | Fin b => if Rlt_dec 0 b then clip (Rpower b e) else NaN
           | _ => NaN
           end
  | Inf negative =>
      match base with
      | Fin b =>
          if Rlt_dec 0 b
          then if Req_dec_T b 1 then NaN
               else if Bool.eqb (if Rlt_dec b 1 then true else false) negative
                    then Inf false      (* 0.5 ^ -Infinity, 2 ^ Infinity *)
                    else Fin 0          (* 0.5 ^ Infinity, 2 ^ -Infinity *)
          else NaN
      | _ => NaN
      end
  end.

(** [v > 0] for the number a comparator returns ([NaN] counts as 0). *)
Definition positive (n : number) : bool :=
  match n with
  | NaN => false
  | Inf negative => negb negative
  | Fin r => if Rlt_dec 0 r then true else false
  end.

(** ** Values of parsed JSON, and property reads that can yield [undefined]

    [VObj] lists the own properties of a parsed object, each name once.
    [VNum r] is a number that parsed to a finite double (a literal such as
    [1e999], which parses to [Infinity], is not represented). *)

#[warnings="-register-all"]
Inductive value : Type :=
| VUndefined
| VNull
| VBool (b : bool)
| VNum (r : R)
| VStr (s : string)
| VArr (items : list value)
| VObj (props : list (string * value)).

Inductive error : Type :=
| TypeError
| RangeError.

Inductive completion (A : Type) : Type :=
| Normal (a : A)
| Throw (e : error).

Arguments Normal {A} a.
Arguments Throw {A} e.

Definition bind {A B : Type} (c : completion A) (k : A -> completion B) : completion B :=
  match c with
  | Normal a => k a
  | Throw e => Throw e
  end.

Notation "x <- c ;; k" := (bind c (fun x => k))
  (at level 61, c at next level, right associativity).

Fixpoint mapM {A B : Type} (f : A -> completion B) (l : list A) : completion (list B) :=
  match l with
  | [] => Normal []
  | x :: rest => y <- f x ;; ys <- mapM f rest ;; Normal (y :: ys)
  end.

Fixpoint foldM {A S : Type} (f : S -> A -> completion S) (l : list A) (s : S) : completion S :=
  match l with
  | [] => Normal s
  | x :: rest => s' <- f s x ;; foldM f rest s'
  end.

Fixpoint lookup {A : Type} (k : string) (l : list (string * A)) : option A :=
  match l with
  | [] => None
  | (k', v) :: rest => if k' =? k then Some v else lookup k rest
  end.

Definition hasOwn {A : Type} (k : string) (l : list (string * A)) : bool :=
  match lookup k l with
  | Some _ => true
  | None => false
  end.

(** [v.k] for the property names the source reads ([productIds], [data],
    [products], [id], [name], [timestamp], [events]): none of them is a member
    of a built-in prototype, so the read finds an own property of a parsed
    object or [undefined]; on [null] and [undefined] it raises. *)
Definition Get (v : value) (k : string) : completion value :=
  match v with
  | VUndefined | VNull => Throw TypeError
  | VObj props =>
      Normal (match lookup k props with Some x => x | None => VUndefined end)
  | _ => Normal VUndefined
  end.

Definition nullish (v : value) : bool :=
  match v with
  | VUndefined | VNull => true
  | _ => false
  end.

Definition ToBoolean (v : value) : bool :=
  match v with
  | VUndefined | VNull => false
  | VBool b => b
  | VNum r => if Req_dec_T r 0 then false else true
  | VStr s => negb (s =? "")
  | VArr _ | VObj _ => true
  end.

(** The host's conversions between numbers and text. *)
Record Host : Type := {
  Number_toString : R -> string;
  StringToNumber : string -> number
}.

Section Coercions.

Variable host : Host.

(** [ToString] (also [ToPropertyKey]: parsed JSON holds no symbol). An array
    joins its elements with commas, [null] and [undefined] elements as the
    empty text. A parsed object has no callable member of its own: with an own
    [toString] property the conversion finds no method and raises, otherwise
    it inherits [Object.prototype.toString]. *)
Fixpoint ToString (v : value) : completion string :=
  match v with
  | VUndefined => Normal "undefined"
  | VNull => Normal "null"
  | VBool b => Normal (if b then "true" else "false")
  | VNum r => Normal (Number_toString host r)
  | VStr s => Normal s
  | VArr items =>
      (fix join (l : list value) : completion string :=
         match l with
         | [] => Normal ""
         | x :: rest =>
             s <- match x with
                  | VUndefined | VNull => Normal ""
                  | _ => ToString x
                  end ;;
             match rest with
             | [] => Normal s
             | _ :: _ => t <- join rest ;; Normal (s ++ "," ++ t)%string
             end
         end) items
  | VObj props =>
      if hasOwn "toString" props then Throw TypeError
      else Normal "[object Object]"
  end.

Definition ToPropertyKey : value -> completion string := ToString.

(** [ToNumber]: arrays and objects go through their text. *)
Definition ToNumber (v : value) : completion number :=
  match v with
  | VUndefined => Normal NaN
  | VNull => Normal (Fin 0)
  | VBool b => Normal (Fin (if b then 1 else 0))
  | VNum r => Normal (Fin r)
  | VStr s => Normal (StringToNumber host s)
  | VArr _ | VObj _ => s <- ToString v ;; Normal (StringToNumber host s)
  end.

End Coercions.

(** ** The module's own objects: [EVENT_WEIGHTS], [scores]

    Both are plain object literals, so a read that finds no own property
    continues in [Object.prototype]. What such objects hold or yield: *)

Inductive jsval : Type :=
| JUndefined
| JNumber (n : number)
| JText      (* a string that starts with the text of a built-in member *)
| JBuiltin.  (* a member inherited from Object.prototype *)

Definition object : Type := list (string * jsval).

(** The property names of [Object.prototype]. *)
Definition Object_prototype_keys : list string :=
  [ "constructor"; "__defineGetter__"; "__defineSetter__"; "hasOwnProperty";
    "__lookupGetter__"; "__lookupSetter__"; "isPrototypeOf";
    "propertyIsEnumerable"; "toString"; "valueOf"; "__proto__";
    "toLocaleString" ].

Definition mem (k : string) (l : list string) : bool := existsb (String.eqb k) l.

(** [o[k]], read. *)
Definition GetProperty (o : object) (k : string) : jsval :=
  match lookup k o with
  | Some v => v
  | None => if mem k Object_prototype_keys then JBuiltin else JUndefined
  end.

Fixpoint update (k : string) (v : jsval) (o : object) : object :=
  match o with
  | [] => [(k, v)]
  | (k', v') :: rest =>
      if k' =? k then (k, v) :: rest else (k', v') :: update k v rest
  end.

(** [o[k] = v] for a primitive [v]: an existing property keeps its place, a
    new one is created last; the inherited setter of [__proto__] ignores a
    primitive and creates nothing. *)
Definition SetProperty (o : object) (k : string) (v : jsval) : object :=
  if k =? "__proto__" then o else update k v o.

(** A key is an array index when it is the canonical decimal text of an
    integer from 0 to 2^32 - 2. *)
Definition digit_of (c : ascii) : option N :=
  let n := N_of_ascii c in
  if ((48 <=? n) && (n <=? 57))%N then Some (n - 48)%N else None.

Fixpoint decimal (s : string) (acc : N) : option N :=
  match s with
  | EmptyString => Some acc
  | String c rest =>
      match digit_of c with
      | Some d => decimal rest (10 * acc + d)%N
      | None => None
      end
  end.

Definition arrayIndex (k : string) : option N :=
  match k with
  | EmptyString => None
  | String c rest =>
      if (c =? "0")%char && negb (rest =? "") then None
      else match decimal k 0 with
           | Some n => if (n <=? 4294967294)%N then Some n else None
           | None => None
           end
  end.

Definition isArrayIndex (k : string) : bool :=
  match arrayIndex k with
  | Some _ => true
  | None => false
  end.

Fixpoint insertIndex (x : N * (string * jsval)) (l : list (N * (string * jsval)))
  : list (N * (string * jsval)) :=
  match l with
  | [] => [x]
  | y :: rest => if (fst x <=? fst y)%N then x :: l else y :: insertIndex x rest
  end.

Definition indexProps (o : object) : list (N * (string * jsval)) :=
  flat_map (fun kv => match arrayIndex (fst kv) with
                      | Some n => [(n, kv)]
                      | None => []
                      end) o.

(** [Object.entries(o)]: the array-index keys in ascending numeric order,
    then the other keys in the order of their creation. *)
Definition Object_entries (o : object) : list (string * jsval) :=
  map snd (fold_right insertIndex [] (indexProps o))
  ++ filter (fun kv => negb (isArrayIndex (fst kv))) o.

(** Truthiness, and the operators the source applies to such values. *)
Definition truthy (v : jsval) : bool :=
  match v with
  | JUndefined => false
  | JNumber NaN => false
  | JNumber (Inf _) => true
  | JNumber (Fin r) => if Req_dec_T r 0 then false else true
  | JText | JBuiltin => true
  end.

(** [a || b] *)
Definition or_else (a b : jsval) : jsval := if truthy a then a else b.

(** [a ?? b] *)
Definition coalesce (a b : jsval) : jsval :=
  match a with
  | JUndefined => b
  | _ => a
  end.

(** [ToNumber]: the text of a built-in member is not a numeric literal. *)
Definition toNumber (v : jsval) : number :=
  match v with
  | JNumber n => n
  | JUndefined | JText | JBuiltin => NaN
  end.

(** [a * b] with a number on the right. *)
Definition times (a : jsval) (b : number) : number := nmul (toNumber a) b.

(** [a + b] with a number on the right: a sum of numbers, or the
    concatenation of texts as soon as the left operand is not a number. *)
Definition plus (a : jsval) (b : number) : jsval :=
  match a with
  | JNumber x => JNumber (nadd x b)
  | JUndefined => JNumber NaN
  | JText | JBuiltin => JText
  end.

(** ** Configuration *)

Definition EVENT_WEIGHTS : object :=
  [ ("ProductAddToCart", JNumber (Fin 10));
    ("ProductDetailsView", JNumber (Fin 5));
    ("Purchase", JNumber (Fin (-100)));
    ("MyCustomEvent", JNumber (Fin 15));
    ("MyCustomWishlistEvent", JNumber (Fin 20)) ].

Definition DEFAULT_WEIGHT : jsval := JNumber (Fin 1).

Definition RECENCY_HALF_LIFE_DAYS : number := Fin 7.

(** ** [scoreEvents] *)

(** [Array.prototype.sort(compareFn)]: the sort is stable; an element moves
    behind another only when the comparator returns a positive number. For a
    comparator that is a consistent ordering every stable sort returns this
    list. *)
Section Sort.

Context {A : Type} (compareFn : A -> A -> number).

Fixpoint insert (x : A) (l : list A) : list A :=
  match l with
  | [] => [x]
  | y :: rest => if positive (compareFn x y) then y :: insert x rest else x :: l
  end.

Definition sort (l : list A) : list A := fold_right insert [] l.

End Sort.

(** [Array.prototype.slice(0, end)] for an integral [end]: a negative [end]
    counts from the end of the array. *)
Definition slice {A : Type} (l : list A) (end_ : Z) : list A :=
  let len := Z.of_nat (List.length l) in
  let final := if (end_ <? 0)%Z then Z.max (len + end_) 0 else Z.min end_ len in
  firstn (Z.to_nat final) l.

(** The elements a [for ... of] visits: those of an array, the characters of
    a string; no other parsed value is iterable. *)
Definition iterate (v : value) : completion (list value) :=
  match v with
  | VArr items => Normal items
  | VStr s => Normal (map (fun c => VStr (String c EmptyString)) (list_ascii_of_string s))
  | _ => Throw TypeError
  end.

(** [Set.prototype.has] with a string argument: only an equal string is the
    same value. *)
Definition Set_has (purchased : list value) (k : string) : bool :=
  existsb (fun v => match v with VStr s => s =? k | _ => false end) purchased.

(** [v === s] for a string literal [s]. *)
Definition strictEquals (v : value) (s : string) : bool :=
  match v with
  | VStr n => n =? s
  | _ => false
  end.

Section Engine.

Variable host : Host.

(** Lines 26-28: [event.productIds || event.data?.products?.map(p => p.id)
    || (event.data?.id ? [event.data.id] : [])]. *)
Definition extractIds (event : value) : completion value :=
  productIds <- Get event "productIds" ;;
  if ToBoolean productIds then Normal productIds
  else
    data <- Get event "data" ;;
    mapped <- (if nullish data then Normal VUndefined
               else
                 products <- Get data "products" ;;
                 if nullish products then Normal VUndefined
                 else match products with
                      | VArr ps => ids <- mapM (fun p => Get p "id") ps ;; Normal (VArr ids)
                      | _ => Throw TypeError
                      end) ;;
    if ToBoolean mapped then Normal mapped
    else if nullish data then Normal (VArr [])
    else
      id <- Get data "id" ;;
      if ToBoolean id then Normal (VArr [id]) else Normal (VArr []).

(** Lines 36-37. *)
Definition ageInDays (now : Z) (timestamp : number) : number :=
  ndiv (nsub (Fin (IZR now)) timestamp) (Fin 86400).

Definition recency (age : number) : number :=
  Math_pow (Fin (1 / 2)) (ndiv age RECENCY_HALF_LIFE_DAYS).

(** Line 40: [scores[id] = (scores[id] || 0) + weight * recency]. *)
Definition accumulate (contribution : number) (scores : object) (id : value)
  : completion object :=
  k <- ToPropertyKey host id ;;
  Normal (SetProperty scores k
            (plus (or_else (GetProperty scores k) (JNumber (Fin 0))) contribution)).

(** The body of the loop, lines 25-41, on the pair ([scores], [purchased]). *)
Definition scoreEvent (now : Z) (st : object * list value) (event : value)
  : completion (object * list value) :=
  let (scores, purchased) := st in
  ids <- extractIds event ;;
  name <- Get event "name" ;;
  if strictEquals name "Purchase" then
    match ids with                      (* ids.forEach *)
    | VArr l => Normal (scores, purchased ++ l)
    | _ => Throw TypeError
    end
  else
    key <- ToPropertyKey host name ;;
    let weight := coalesce (GetProperty EVENT_WEIGHTS key) DEFAULT_WEIGHT in
    timestamp <- Get event "timestamp" ;;
    t <- ToNumber host timestamp ;;
    let contribution := times weight (recency (ageInDays now t)) in
    l <- iterate ids ;;
    scores' <- foldM (accumulate contribution) l scores ;;
    Normal (scores', purchased).

Definition compareScores (a b : string * jsval) : number :=
  nsub (toNumber (snd b)) (toNumber (snd a)).

(** Lines 44-46, before the truncation. *)
Definition rank (st : object * list value) : list (string * jsval) :=
  sort compareScores
    (filter (fun e => negb (Set_has (snd st) (fst e))) (Object_entries (fst st))).

(** [now] is the value of [Math.floor(Date.now() / 1000)]; the result lists
    the [{ id, score }] records as pairs. *)
Definition scoreEvents (now : Z) (events : list value) (requestedItems : Z)
  : completion (list (string * jsval)) :=
  st <- foldM (scoreEvent now) events ([], []) ;;
  Normal (slice (rank st) requestedItems).

End Engine.

(** ** The request handler *)

(** What [url.parse(req.url, true).query.requestedItems] holds: nothing, a
    string, or an array of strings when the parameter is repeated. *)
Inductive query_value : Type :=
| QAbsent
| QString (s : string)
| QArray (l : list string).

(** What [JSON.parse(body)] does: raise a [SyntaxError] or return a value. *)
Inductive parse_result : Type :=
| SyntaxError
| Parsed (payload : value).

Record request : Type := {
  method : string;
  url : string;
  query : query_value;
  body : parse_result
}.

Definition isWhiteSpace (c : ascii) : bool :=
  let n := N_of_ascii c in
  ((n =? 9) || (n =? 10) || (n =? 11) || (n =? 12) || (n =? 13) || (n =? 32)
   || (n =? 160))%N.

Fixpoint trimStart (s : string) : string :=
  match s with
  | EmptyString => EmptyString
  | String c rest => if isWhiteSpace c then trimStart rest else s
  end.

Definition digitValue (c : ascii) : option Z :=
  let n := Z.of_N (N_of_ascii c) in
  if ((48 <=? n) && (n <=? 57))%Z then Some (n - 48)%Z
  else if ((97 <=? n) && (n <=? 122))%Z then Some (n - 87)%Z
  else if ((65 <=? n) && (n <=? 90))%Z then Some (n - 55)%Z
  else None.

(** The value of the longest prefix of digits of the radix; [None] when
    there is no digit. *)
Fixpoint digits (radix : Z) (s : string) (acc : option Z) : option Z :=
  match s with
  | EmptyString => acc
  | String c rest =>
      match digitValue c with
      | Some d =>
          if (d <? radix)%Z
          then digits radix rest
                 (Some (radix * match acc with Some a => a | None => 0 end + d)%Z)
          else acc
      | None => acc
      end
  end.

(** [parseInt(text)] with no radix; [None] is [NaN]. The result is the
    integer the digits denote (a double rounds it beyond 2^53, keeping its
    sign and whether it is zero). *)
Definition parseInt (text : string) : option Z :=
  let s := trimStart text in
  let (sign, s) :=
    match s with
    | String "-" rest => ((-1)%Z, rest)
    | String "+" rest => (1%Z, rest)
    | _ => (1%Z, s)
    end in
  let (radix, s) :=
    match s with
    | String "0" (String "x" rest) | String "0" (String "X" rest) => (16%Z, rest)
    | _ => (10%Z, s)
    end in
  match digits radix s None with
  | Some n => Some (sign * n)%Z
  | None => None
  end.

(** The text [parseInt] reads off its argument. *)
Definition queryText (q : query_value) : string :=
  match q with
  | QAbsent => "undefined"
  | QString s => s
  | QArray l => String.concat "," l
  end.

(** Line 69: [parseInt(parsed.query.requestedItems) || 3]. *)
Definition requestedItemsOf (q : query_value) : Z :=
  match parseInt (queryText q) with
  | Some n => if (n =? 0)%Z then 3%Z else n
  | None => 3%Z
  end.

(** [JSON.stringify] of an array of strings. *)
Definition hexDigit (n : N) : ascii :=
  ascii_of_N (if (n <? 10)%N then 48 + n else 87 + n)%N.

Definition quoteChar (c : ascii) : string :=
  let n := N_of_ascii c in
  let esc (x : ascii) := String "\" (String x EmptyString) in
  if (n =? 34)%N then esc c
  else if (n =? 92)%N then esc c
  else if (n =? 8)%N then esc "b"%char
  else if (n =? 12)%N then esc "f"%char
  else if (n =? 10)%N then esc "n"%char
  else if (n =? 13)%N then esc "r"%char
  else if (n =? 9)%N then esc "t"%char
  else if (n <? 32)%N
       then "\u00" ++ String (hexDigit (n / 16)) (String (hexDigit (n mod 16)) EmptyString)
       else String c EmptyString.

Definition quoteString (s : string) : string :=
  let q := String (ascii_of_N 34) EmptyString in
  q ++ String.concat "" (map quoteChar (list_ascii_of_string s)) ++ q.

Definition JSON_stringify (ids : list string) : string :=
  "[" ++ String.concat "," (map quoteString ids) ++ "]".

(** What a request ends in: a response, or an exception nobody catches. *)
Inductive outcome : Type :=
| Respond (status : Z) (text : string)
| Crash (e : error).

(** [invoked] holds the arguments of the call of [scoreEvents], if the
    handler got that far. *)
Record run : Type := {
  invoked : option (list value * Z);
  result : outcome
}.

Section Handler.

Variable host : Host.

(** [new Date(ms).toISOString()] raises a [RangeError] on an invalid date. *)
Definition validTime (ms : number) : bool :=
  match ms with
  | NaN | Inf _ => false
  | Fin r => if Rle_dec (Rabs r) 8640000000000000 then true else false
  end.

(** Lines 108-110 (and 121-123): what the three log lines of one event can
    raise. *)
Definition logDetails (e : value) : completion unit :=
  timestamp <- Get e "timestamp" ;;
  _ <- ToString host timestamp ;;
  t <- ToNumber host timestamp ;;
  if validTime (nmul t (Fin 1000)) then Normal tt else Throw RangeError.

Definition nameIs (s : string) (e : value) : bool :=
  match Get e "name" with
  | Normal name => strictEquals name s
  | Throw _ => false
  end.

(** Lines 88-127: the logging block. *)
Definition logRequest (events : value) : completion unit :=
  es <- iterate events ;;
  _ <- mapM (fun e => name <- Get e "name" ;; ToPropertyKey host name) es ;;
  match events with
  | VArr items =>
      _ <- mapM logDetails (filter (nameIs "MyCustomEvent") items) ;;
      _ <- mapM logDetails (filter (nameIs "MyCustomWishlistEvent") items) ;;
      Normal tt
  | _ => Throw TypeError
  end.

(** Lines 77-85: the body of the [try]. *)
Definition readEvents (b : parse_result) : option value :=
  match b with
  | SyntaxError => None
  | Parsed payload =>
      match Get payload "events" with
      | Normal events => Some (if ToBoolean events then events else VArr [])
      | Throw _ => None
      end
  end.

(** Lines 134-136: [r.score.toFixed(2)] exists on numbers only. *)
Definition logScore (r : string * jsval) : completion unit :=
  match snd r with
  | JNumber _ => Normal tt
  | _ => Throw TypeError
  end.

Definition stopped (o : outcome) : run := {| invoked := None; result := o |}.

Definition handler (now : Z) (req : request) : run :=
  if (method req =? "GET") && (url req =? "/health") then stopped (Respond 200 "OK")
  else if negb (method req =? "POST") then stopped (Respond 405 "")
  else
    let requestedItems := requestedItemsOf (query req) in
    match readEvents (body req) with
    | None => stopped (Respond 400 "[]")
    | Some events =>
        match logRequest events, events with
        | Normal _, VArr items =>
            {| invoked := Some (items, requestedItems);
               result :=
                 match scoreEvents host now items requestedItems with
                 | Normal ranked =>
                     match mapM logScore ranked with
                     | Normal _ => Respond 200 (JSON_stringify (map fst ranked))
                     | Throw e => Crash e
                     end
                 | Throw e => Crash e
                 end |}
        | Normal _, _ => stopped (Crash TypeError)
        | Throw e, _ => stopped (Crash e)
        end
    end.

End Handler.

(** ** Events of the shape the endpoint documents

    [{ name: string, timestamp: number, productIds?: [string],
       data?: { products?: [{ id: string }], id?: string } }]: a parsed
    object is of this shape when each of these properties is absent or of the
    type given; it may have any other property. [shaped] decides it, and
    [decode] reads the documented properties off a value. *)

Record EventData : Type := {
  products : option (list string);
  data_id : option string
}.

Record Event : Type := {
  name : option string;
  timestamp : option R;
  productIds : option (list string);
  data : option EventData
}.

Definition isString (v : value) : bool :=
  match v with
  | VStr _ => true
  | _ => false
  end.

Definition isNumber (v : value) : bool :=
  match v with
  | VNum _ => true
  | _ => false
  end.

Definition isStringArray (v : value) : bool :=
  match v with
  | VArr l => forallb isString l
  | _ => false
  end.

Definition isProduct (p : value) : bool :=
  match p with
  | VObj props => match lookup "id" props with
                  | Some i => isString i
                  | None => false
                  end
  | _ => false
  end.

Definition isProductArray (v : value) : bool :=
  match v with
  | VArr l => forallb isProduct l
  | _ => false
  end.

Definition optional (ok : value -> bool) (v : option value) : bool :=
  match v with
  | Some x => ok x
  | None => true
  end.

Definition isData (d : value) : bool :=
  match d with
  | VObj props =>
      optional isProductArray (lookup "products" props)
      && optional isString (lookup "id" props)
  | _ => false
  end.

Definition shaped (event : value) : bool :=
  match event with
  | VObj props =>
      optional isString (lookup "name" props)
      && optional isNumber (lookup "timestamp" props)
      && optional isStringArray (lookup "productIds" props)
      && optional isData (lookup "data" props)
  | _ => false
  end.

Definition asString (v : option value) : option string :=
  match v with
  | Some (VStr s) => Some s
  | _ => None
  end.

Definition asNumber (v : option value) : option R :=
  match v with
  | Some (VNum r) => Some r
  | _ => None
  end.

(** The strings of a list that holds strings only. *)
Fixpoint texts (l : list value) : option (list string) :=
  match l with
  | [] => Some []
  | VStr s :: rest => option_map (cons s) (texts rest)
  | _ :: _ => None
  end.

(** The identifiers of a list of product sub-records. *)
Fixpoint productTexts (l : list value) : option (list string) :=
  match l with
  | [] => Some []
  | VObj props :: rest =>
      match asString (lookup "id" props), productTexts rest with
      | Some i, Some r => Some (i :: r)
      | _, _ => None
      end
  | _ :: _ => None
  end.

Definition decodeData (d : value) : option EventData :=
  match d with
  | VObj props =>
      Some {| products := match lookup "products" props with
                          | Some (VArr ps) => productTexts ps
                          | _ => None
                          end;
              data_id := asString (lookup "id" props) |}
  | _ => None
  end.

Definition decode (event : value) : Event :=
  match event with
  | VObj props =>
      {| name := asString (lookup "name" props);
         timestamp := asNumber (lookup "timestamp" props);
         productIds := match lookup "productIds" props with
                       | Some (VArr l) => texts l
                       | _ => None
                       end;
         data := match lookup "data" props with
                 | Some d => decodeData d
                 | None => None
                 end |}
  | _ => {| name := None; timestamp := None; productIds := None; data := None |}
  end.

(** The parsed object that holds the properties of [e] and no other. *)
Definition field (k : string) (v : option value) : list (string * value) :=
  match v with
  | Some x => [(k, x)]
  | None => []
  end.

Definition strings (l : list string) : value := VArr (map VStr l).

Definition encodeData (d : EventData) : value :=
  VObj (field "products"
          (option_map (fun ps => VArr (map (fun i => VObj [("id", VStr i)]) ps))
             (products d))
        ++ field "id" (option_map VStr (data_id d))).

Definition encode (e : Event) : value :=
  VObj (field "name" (option_map VStr (name e))
        ++ field "timestamp" (option_map VNum (timestamp e))
        ++ field "productIds" (option_map strings (productIds e))
        ++ field "data" (option_map encodeData (data e))).

(** ** Vocabulary of the statements *)

(** [x] stands before [y] in [l]. *)
Definition precedes {A : Type} (x y : A) (l : list A) : Prop :=
  exists l1 l2 l3, l = l1 ++ x :: l2 ++ y :: l3.

(** The own keys of an object, in the order of their creation. *)
Definition keys (o : object) : list string := map fst o.

(** What the loop reads off an event of the documented shape (lemma
    [scoreEvent_shaped] proves that the body of the loop does [step] on what
    [decode] reads off such an event). *)
Definition isPurchase (e : Event) : bool :=
  match name e with
  | Some n => n =? "Purchase"
  | None => false
  end.

(** The identifiers of an event: those of the first source that is present. *)
Definition idsOf (e : Event) : list string :=
  match productIds e with
  | Some l => l
  | None =>
      match data e with
      | Some d =>
          match products d with
          | Some ps => ps
          | None =>
              match data_id d with
              | Some i => if i =? "" then [] else [i]
              | None => []
              end
          end
      | None => []
      end
  end.

(** The key under which its weight is looked up. *)
Definition keyOf (e : Event) : string :=
  match name e with
  | Some n => n
  | None => "undefined"
  end.

Definition weightOf (e : Event) : jsval :=
  coalesce (GetProperty EVENT_WEIGHTS (keyOf e)) DEFAULT_WEIGHT.

Definition timeOf (e : Event) : number :=
  match timestamp e with
  | Some r => Fin r
  | None => NaN
  end.

Definition contributionOf (now : Z) (e : Event) : number :=
  times (weightOf e) (recency (ageInDays now (timeOf e))).

(** Line 40 for the key [k]. *)
Definition add (c : number) (scores : object) (k : string) : object :=
  SetProperty scores k (plus (or_else (GetProperty scores k) (JNumber (Fin 0))) c).

Definition step (now : Z) (st : object * list value) (e : Event) : object * list value :=
  if isPurchase e then (fst st, snd st ++ map VStr (idsOf e))
  else (fold_left (add (contributionOf now e)) (idsOf e) (fst st), snd st).

(** The identifiers of the events that are not purchases, in the order the
    loop meets them, and those of the purchases. *)
Definition scoredIds (evs : list Event) : list string :=
  flat_map (fun e => if isPurchase e then [] else idsOf e) evs.

Definition purchasedIds (evs : list Event) : list string :=
  flat_map (fun e => if isPurchase e then idsOf e else []) evs.

Definition contributions (now : Z) (evs : list Event) : list (string * number) :=
  flat_map (fun e => if isPurchase e then []
                     else map (fun i => (i, contributionOf now e)) (idsOf e)) evs.

(** The accumulator after it received the contributions [kcs] in turn. *)
Definition feed (o : object) (kcs : list (string * number)) : object :=
  fold_left (fun o kc => add (snd kc) o (fst kc)) kcs o.

(** The identifiers of [l] in the order of their first occurrence, without
    those of [seen] and without "__proto__", which no assignment stores. *)
Fixpoint firstSeen (seen l : list string) : list string :=
  match l with
  | [] => []
  | k :: rest =>
      if (k =? "__proto__") || mem k seen then firstSeen seen rest
      else k :: firstSeen (seen ++ [k]) rest
  end.

(** A contribution is never negative: it is [NaN], [Infinity] or a finite
    number that is 0 or more. A stored score is then such a number or a
    text. *)
Definition notNegative (c : number) : Prop :=
  c = NaN \/ c = Inf false \/ exists r, c = Fin r /\ (0 <= r)%R.

Definition settled (v : jsval) : Prop :=
  v = JText \/ exists c, v = JNumber c /\ notNegative c.

(** [x <= y] on the numbers other than [NaN]. *)
Definition nleq (x y : number) : Prop :=
  match x, y with
  | NaN, _ | _, NaN => False
  | Inf true, _ => True
  | _, Inf false => True
  | Fin a, Fin b => (a <= b)%R
  | _, _ => False
  end.

Definition notPurchased (purchased : list value) (e : string * jsval) : bool :=
  negb (Set_has purchased (fst e)).

(** The extraction as the specification words it: the first source that is
    not empty wins. *)
Definition extract_spec (e : Event) : list string :=
  match productIds e with
  | Some (i :: l) => i :: l
  | _ =>
      match data e with
      | Some d =>
          match products d with
          | Some (i :: l) => i :: l
          | _ =>
              match data_id d with
              | Some i => [i]
              | None => []
              end
          end
      | None => []
      end
  end.

(** A statement that holds whatever the host's conversions return. *)
Definition on_every_host (P : Host -> Prop) : Prop := forall host, P host.

Definition clock : Z := 1700000000.

(** An event stamped with the time of the call. *)
Definition fresh (n : string) (ids : list string) : Event :=
  {| name := Some n; timestamp := Some (IZR clock); productIds := Some ids;
     data := None |}.

(** An event stamped with the time 0, the first second of 1970. *)
Definition ancient (n : string) (ids : list string) : Event :=
  {| name := Some n; timestamp := Some 0%R; productIds := Some ids; data := None |}.

(** Scenarios B and C of the specification. *)
Definition scenarioB : list Event :=
  [fresh "Purchase" ["p1"]; fresh "ProductAddToCart" ["p1"]].

Definition scenarioC : list Event :=
  [fresh "ProductAddToCart" ["p1"]; fresh "ProductDetailsView" ["p2"]].

(** An event with an empty explicit list and an embedded identifier. *)
Definition emptyList : Event :=
  {| name := Some "ProductDetailsView"; timestamp := Some (IZR clock);
     productIds := Some [];
     data := Some {| products := None; data_id := Some "p1" |} |}.

(** One event that carries the identifiers "2" and "1", in this order. *)
Definition indexIds : list Event := [fresh "ProductDetailsView" ["2"; "1"]].

(** One event that carries the identifiers "a" and "b". *)
Definition namedIds : list Event := [fresh "ProductDetailsView" ["a"; "b"]].

(** [[{}, { name: "ProductDetailsView", sessionId: "s1", productIds: ["p1"] },
      { timestamp: 1700000000, data: { category: "shoes" } }]]: events
    without a name, without a timestamp, without identifiers. *)
Definition sparse : list value :=
  [ VObj [];
    VObj [("name", VStr "ProductDetailsView"); ("sessionId", VStr "s1");
          ("productIds", VArr [VStr "p1"])];
    VObj [("timestamp", VNum (IZR clock));
          ("data", VObj [("category", VStr "shoes")])] ].

(** [{ name: "Purchase", timestamp: 1700000000, productIds: "p1" }] *)
Definition stringIds : value :=
  VObj [("name", VStr "Purchase"); ("timestamp", VNum (IZR clock));
        ("productIds", VStr "p1")].

(** [{ name: "Purchase", timestamp: 1700000000, productIds: [1] }]: a
    purchase whose identifier is a number. *)
Definition purchaseOfNumber : value :=
  VObj [("name", VStr "Purchase"); ("timestamp", VNum (IZR clock));
        ("productIds", VArr [VNum 1])].

(** A POST to the endpoint. *)
Definition post (b : parse_result) (q : query_value) : request :=
  {| method := "POST"; url := "/recommend"; query := q; body := b |}.

(** The contributions the list [kcs] makes to the key [x], in order. *)
Definition contributionsTo (x : string) (kcs : list (string * number)) : list number :=
  map snd (filter (fun kc => fst kc =? x) kcs).

(** Line 40 repeated on one property: the value [v] after it received the
    contributions [cs] in turn. *)
Definition value_after (v : jsval) (cs : list number) : jsval :=
  fold_left (fun v c => plus (or_else v (JNumber (Fin 0))) c) cs v.

(** The sum of [cs], formed from 0 in the order of the list. *)
Definition total (cs : list number) : number := fold_left nadd cs (Fin 0).

(** The score of an entry whose score is a number (0 otherwise). *)
Definition scoreOf (e : string * jsval) : R :=
  match snd e with
  | JNumber (Fin r) => r
  | _ => 0%R
  end.

(** [v[k]] where the read raises nothing: [undefined] on a value that is no
    object. *)
Definition read (v : value) (k : string) : value :=
  match v with
  | VObj props => match lookup k props with Some x => x | None => VUndefined end
  | _ => VUndefined
  end.

(** The events the log prints in detail (lines 104 and 117), and those the
    logging block passes: the date of a detailed event has to be valid. *)
Definition detailed (e : Event) : bool :=
  match name e with
  | Some n => (n =? "MyCustomEvent") || (n =? "MyCustomWishlistEvent")
  | None => false
  end.

Definition loggable (e : Event) : bool :=
  negb (detailed e) || validTime (nmul (timeOf e) (Fin 1000)).

(** The entries whose score is a number. *)
Definition isScore (r : string * jsval) : bool :=
  match snd r with
  | JNumber _ => true
  | _ => false
  end.

(** The decimal text of an integer, with a minus sign when it is negative
    and no other sign, no space and no leading zero. *)
Definition decimalText (n : Z) : string :=
  DecimalString.NilZero.string_of_int (Z.to_int n).

(** The text is empty or begins with a character that is no decimal digit. *)
Definition noDigit (s : string) : bool :=
  match s with
  | EmptyString => true
  | String c _ =>
      match digitValue c with
      | Some d => negb (d <? 10)%Z
      | None => true
      end
  end.

(** The same event, stamped seven days earlier. *)
Definition weekEarlier (e : Event) : Event :=
  {| name := name e;
     timestamp := option_map (fun t => (t - 7 * 86400)%R) (timestamp e);
     productIds := productIds e;
     data := data e |}.

(** [x] stands before [y] among the keys [Object.entries] lists, whatever
    the order of their creation: [x] is an array index, and [y] is none or a
    greater one. *)
Definition indexBefore (x y : string) : Prop :=
  match arrayIndex x, arrayIndex y with
  | Some i, Some j => (i < j)%N
  | Some _, None => True
  | None, _ => False
  end.

(** An event without a timestamp. *)
Definition undated (n : string) (ids : list string) : Event :=
  {| name := Some n; timestamp := None; productIds := Some ids; data := None |}.

(** Scenario D of the specification: the same product, added to the cart
    now and viewed seven days ago. *)
Definition scenarioD : list Event :=
  [fresh "ProductAddToCart" ["p1"]; weekEarlier (fresh "ProductDetailsView" ["p1"])].

(** Two events that the log prints in detail. *)
Definition customEvents : list Event :=
  [fresh "MyCustomEvent" ["p1"]; fresh "MyCustomWishlistEvent" ["p2"]].

(** One event whose identifiers are a name, the index 10 and the index 9. *)
Definition mixedIds : list Event := [fresh "ProductDetailsView" ["b"; "10"; "9"]].

(** One event that carries the name of an inherited member as an
    identifier, and one that carries "__proto__". *)
Definition inheritedId : list Event := [fresh "ProductAddToCart" ["toString"; "p1"]].

Definition protoId : list Event := [fresh "ProductAddToCart" ["__proto__"; "p1"]].

(** A POST of the body [{ events: ... }]. *)
Definition postEvents (events : value) (q : query_value) : request :=
  post (Parsed (VObj [("events", events)])) q.


(** * Properties *)

(** ** The range of the doubles *)

Lemma pow2_60 : (2 ^ 60 = 1152921504606846976)%R.
Proof. rewrite (pow_IZR 2 60). apply f_equal. reflexivity. Qed.

Lemma huge_bound : (1000000000000000000 < huge)%R.
Proof.
  unfold huge. change 1024%nat with (970 + 54)%nat. rewrite pow_add.
  assert (H1 : (2 ^ 60 <= 2 ^ 970)%R) by (apply Rle_pow; [lra|lia]).
  assert (H2 : (2 ^ 1 <= 2 ^ 54)%R) by (apply Rle_pow; [lra|lia]).
  rewrite pow2_60 in H1. rewrite pow_1 in H2. nra.
Qed.

Lemma tiny_bound : (0 < tiny < / 1000000000000000000)%R.
Proof.
  unfold tiny.
  assert (H1 : (2 ^ 60 <= 2 ^ 1075)%R) by (apply Rle_pow; [lra|lia]).
  rewrite pow2_60 in H1. split.
  - apply Rinv_0_lt_compat. lra.
  - apply Rinv_lt_contravar; [nra|lra].
Qed.

Lemma Rpower_half_tiny : Rpower (1 / 2) 1075 = tiny.
Proof.
  unfold tiny. change 1075%R with (IZR (Z.of_nat 1075)).
  rewrite <- INR_IZR_INZ, Rpower_pow by lra.
  replace (1 / 2)%R with (/ 2)%R by lra. apply pow_inv.
Qed.


Global Opaque huge tiny.

Lemma overflow_Fin (r : R) : (- huge < r < huge)%R -> overflow r = Fin r.
Proof.
  intros H. unfold overflow.
  destruct (Rle_dec huge r); [lra|]. destruct (Rle_dec r (- huge)); [lra|easy].
Qed.

Lemma clip_Fin (r : R) :
  (- huge < r < huge)%R -> (r < - tiny \/ tiny < r)%R -> clip r = Fin r.
Proof.
  intros H Hr. unfold clip.
  destruct (Rle_dec huge r); [lra|]. destruct (Rle_dec r (- huge)); [lra|].
  destruct (Rle_dec (- tiny) r); [|easy]. destruct (Rle_dec r tiny); [lra|easy].
Qed.

Lemma clip_zero (r : R) : (- tiny <= r <= tiny)%R -> clip r = Fin 0.
Proof.
  intros H. pose proof huge_bound. pose proof tiny_bound. unfold clip.
  destruct (Rle_dec huge r); [lra|]. destruct (Rle_dec r (- huge)); [lra|].
  destruct (Rle_dec (- tiny) r); [|lra]. destruct (Rle_dec r tiny); [easy|lra].
Qed.

(** What a result that is not negative becomes. *)
Lemma clip_cases (r : R) :
  (0 <= r)%R ->
  (clip r = Inf false /\ (huge <= r)%R)
  \/ (clip r = Fin 0 /\ (r <= tiny)%R)
  \/ (clip r = Fin r /\ (tiny < r < huge)%R).
Proof.
  intros H. pose proof huge_bound. pose proof tiny_bound. unfold clip.
  destruct (Rle_dec huge r); [now left|]. destruct (Rle_dec r (- huge)); [lra|].
  destruct (Rle_dec (- tiny) r); [|lra].
  destruct (Rle_dec r tiny); [right; now left|right; right; split; [easy|lra]].
Qed.

Lemma clip_notNegative (r : R) : (0 <= r)%R -> notNegative (clip r).
Proof.
  intros H. destruct (clip_cases r H) as [[-> _]|[[-> _]|[-> _]]].
  - right. now left.
  - right. right. exists 0%R. split; [easy|lra].
  - right. right. now exists r.
Qed.

Lemma overflow_notNegative (r : R) : (0 <= r)%R -> notNegative (overflow r).
Proof.
  intros H. pose proof huge_bound. unfold overflow.
  destruct (Rle_dec huge r); [right; now left|].
  destruct (Rle_dec r (- huge)); [lra|]. right. right. now exists r.
Qed.

Lemma nadd_notNegative (a b : number) :
  notNegative a -> notNegative b -> notNegative (nadd a b).
Proof.
  intros [->|[->|(x & -> & Hx)]] [->|[->|(y & -> & Hy)]]; simpl;
    try (now left); try (right; now left).
  apply overflow_notNegative. lra.
Qed.

Lemma nleq_refl (x : number) : x <> NaN -> nleq x x.
Proof. destruct x as [|[]|r]; simpl; try easy; intros _; lra. Qed.


(** ** Lists: positions, sorting, truncation *)

Lemma precedes_cons {A : Type} (a x y : A) (l : list A) :
  precedes x y l -> precedes x y (a :: l).
Proof.
  intros (l1 & l2 & l3 & ->). now exists (a :: l1), l2, l3.
Qed.

Lemma precedes_head {A : Type} (x y : A) (l : list A) :
  In y l -> precedes x y (x :: l).
Proof.
  intros Hy. apply in_split in Hy as (l2 & l3 & ->). now exists [], l2, l3.
Qed.

Lemma precedes_inv {A : Type} (a x y : A) (l : list A) :
  precedes x y (a :: l) -> (a = x /\ In y l) \/ precedes x y l.
Proof.
  intros (l1 & l2 & l3 & E). destruct l1 as [|b l1]; simpl in E.
  - injection E as -> ->. left. split; [easy|]. apply in_or_app. right. now left.
  - injection E as -> ->. right. now exists l1, l2, l3.
Qed.

Lemma precedes_In {A : Type} (x y : A) (l : list A) :
  precedes x y l -> In x l /\ In y l.
Proof.
  intros (l1 & l2 & l3 & ->). split.
  - apply in_or_app. right. now left.
  - apply in_or_app. right. right. apply in_or_app. right. now left.
Qed.

Lemma precedes_map {A B : Type} (f : A -> B) (x y : A) (l : list A) :
  precedes x y l -> precedes (f x) (f y) (map f l).
Proof.
  intros (l1 & l2 & l3 & ->). exists (map f l1), (map f l2), (map f l3).
  now rewrite map_app; simpl; rewrite map_app.
Qed.

Lemma precedes_filter {A : Type} (p : A -> bool) (x y : A) (l : list A) :
  precedes x y l -> p x = true -> p y = true -> precedes x y (filter p l).
Proof.
  intros (l1 & l2 & l3 & ->) Hx Hy.
  exists (filter p l1), (filter p l2), (filter p l3).
  rewrite filter_app. simpl. rewrite Hx, filter_app. simpl. now rewrite Hy.
Qed.

(** In a list whose [f]-images are pairwise distinct, an element of a prefix
    that holds [y] and stands before [y] in the list stands before it in the
    prefix. *)
Lemma precedes_firstn {A B : Type} (f : A -> B) (x y : A) (n : nat) (l : list A) :
  NoDup (map f l) -> precedes x y l -> In y (firstn n l) ->
  precedes x y (firstn n l).
Proof.
  revert n. induction l as [|a l IH]; intros n Hnd Hp Hy.
  - destruct Hp as (l1 & l2 & l3 & E). now destruct l1.
  - destruct n as [|n]; [easy|]. simpl in *.
    apply NoDup_cons_iff in Hnd as [Ha Hnd].
    apply precedes_inv in Hp as [[-> Hin]|Hp].
    + destruct Hy as [->|Hy]; [|now apply precedes_head].
      exfalso. apply Ha. now apply in_map.
    + destruct Hy as [->|Hy].
      * exfalso. apply Ha. apply in_map. now apply precedes_In in Hp.
      * apply precedes_cons. now apply IH.
Qed.

Section SortFacts.

Context {A : Type} (compareFn : A -> A -> number).

Lemma insert_perm (x : A) (l : list A) : Permutation (insert compareFn x l) (x :: l).
Proof.
  induction l as [|y l IH]; simpl; [easy|].
  destruct (positive (compareFn x y)); [|easy].
  rewrite IH. apply perm_swap.
Qed.

Lemma sort_perm (l : list A) : Permutation (sort compareFn l) l.
Proof.
  induction l as [|x l IH]; simpl; [easy|].
  unfold sort in *. simpl. now rewrite insert_perm, IH.
Qed.

Lemma insert_keeps (a x y : A) (l : list A) :
  precedes x y l -> precedes x y (insert compareFn a l).
Proof.
  induction l as [|b l IH]; intros Hp; simpl.
  - destruct Hp as (l1 & l2 & l3 & E). now destruct l1.
  - destruct (positive (compareFn a b)); [|now apply precedes_cons].
    apply precedes_inv in Hp as [[-> Hy]|Hp].
    + apply precedes_head.
      apply (Permutation_in y (Permutation_sym (insert_perm a l))). now right.
    + apply precedes_cons. now apply IH.
Qed.

Lemma insert_before (x y : A) (l : list A) :
  In y l -> positive (compareFn x y) = false -> precedes x y (insert compareFn x l).
Proof.
  induction l as [|b l IH]; intros Hy Hc; simpl; [easy|].
  destruct (positive (compareFn x b)) eqn:Hb.
  - destruct Hy as [->|Hy]; [congruence|]. apply precedes_cons. now apply IH.
  - now apply precedes_head.
Qed.

(** Stability: an element that stands before another and need not move behind
    it still stands before it after sorting. *)
Lemma sort_stable (x y : A) (l : list A) :
  precedes x y l -> positive (compareFn x y) = false ->
  precedes x y (sort compareFn l).
Proof.
  induction l as [|a l IH]; intros Hp Hc.
  - destruct Hp as (l1 & l2 & l3 & E). now destruct l1.
  - change (sort compareFn (a :: l)) with (insert compareFn a (sort compareFn l)).
    apply precedes_inv in Hp as [[-> Hy]|Hp].
    + apply insert_before; [|easy].
      now apply (Permutation_in y (Permutation_sym (sort_perm l))).
    + apply insert_keeps. now apply IH.
Qed.

End SortFacts.

Lemma length_slice {A : Type} (l : list A) (n : Z) :
  (0 <= n)%Z -> List.length (slice l n) = Nat.min (Z.to_nat n) (List.length l).
Proof.
  intros Hn. unfold slice.
  destruct (Z.ltb_spec n 0); [lia|].
  rewrite length_firstn. lia.
Qed.

Lemma slice_zero {A : Type} (l : list A) : slice l 0 = [].
Proof.
  unfold slice. simpl. now replace (Z.min 0 _) with 0%Z by lia.
Qed.

Lemma slice_all {A : Type} (l : list A) (n : Z) :
  (Z.of_nat (List.length l) <= n)%Z -> slice l n = l.
Proof.
  intros Hn. unfold slice.
  destruct (Z.ltb_spec n 0); [lia|].
  rewrite Z.min_r by easy. rewrite Nat2Z.id. apply firstn_all.
Qed.

Lemma slice_negative {A : Type} (l : list A) (n : Z) :
  (n < 0)%Z -> slice l n = firstn (List.length l - Z.to_nat (- n)) l.
Proof.
  intros Hn. unfold slice.
  destruct (Z.ltb_spec n 0); [|lia]. f_equal. lia.
Qed.

Lemma In_firstn {A : Type} (x : A) (n : nat) (l : list A) :
  In x (firstn n l) -> In x l.
Proof.
  revert n. induction l as [|a l IH]; intros [|n]; simpl; try easy.
  intros [->|H]; [now left|right; now apply (IH n)].
Qed.

Lemma slice_incl {A : Type} (l : list A) (n : Z) (x : A) :
  In x (slice l n) -> In x l.
Proof. unfold slice. apply In_firstn. Qed.

(** ** Objects used as maps *)

Lemma lookup_None {A : Type} (k : string) (l : list (string * A)) :
  lookup k l = None <-> ~ In k (map fst l).
Proof.
  induction l as [|[k' v] l IH]; simpl; [easy|].
  destruct (String.eqb_spec k' k) as [->|Hne].
  - split; [easy|]. intros H. exfalso. apply H. now left.
  - rewrite IH. split; [|tauto]. intros H [E|E]; tauto.
Qed.

Lemma lookup_In {A : Type} (k : string) (v : A) (l : list (string * A)) :
  lookup k l = Some v -> In (k, v) l.
Proof.
  induction l as [|[k' v'] l IH]; simpl; [easy|].
  destruct (String.eqb_spec k' k) as [->|Hne].
  - intros [= ->]. now left.
  - intros H. right. now apply IH.
Qed.

Lemma In_lookup {A : Type} (k : string) (v : A) (l : list (string * A)) :
  NoDup (map fst l) -> In (k, v) l -> lookup k l = Some v.
Proof.
  induction l as [|[k' v'] l IH]; simpl; [easy|].
  intros Hnd [E|Hin].
  - injection E as -> ->. now rewrite String.eqb_refl.
  - apply NoDup_cons_iff in Hnd as [Hk Hnd].
    destruct (String.eqb_spec k' k) as [->|Hne]; [|now apply IH].
    exfalso. apply Hk. now apply (in_map fst) in Hin.
Qed.

Lemma keys_update (k : string) (v : jsval) (o : object) :
  keys (update k v o) = if hasOwn k o then keys o else keys o ++ [k].
Proof.
  unfold hasOwn. induction o as [|[k' v'] o IH]; simpl; [easy|].
  destruct (String.eqb_spec k' k) as [->|Hne]; simpl; [easy|].
  rewrite IH. now destruct (lookup k o).
Qed.

Lemma lookup_update (k k' : string) (v : jsval) (o : object) :
  lookup k' (update k v o) = if k =? k' then Some v else lookup k' o.
Proof.
  induction o as [|[k0 v0] o IH]; simpl.
  - now destruct (k =? k').
  - destruct (String.eqb_spec k0 k) as [->|Hne]; simpl.
    + now destruct (k =? k').
    + rewrite IH. destruct (String.eqb_spec k0 k') as [->|Hne'];
        [|easy]. destruct (String.eqb_spec k k'); congruence.
Qed.

Lemma NoDup_keys_update (k : string) (v : jsval) (o : object) :
  NoDup (keys o) -> NoDup (keys (update k v o)).
Proof.
  intros Hnd. rewrite keys_update. unfold hasOwn.
  destruct (lookup k o) eqn:E; [easy|].
  apply lookup_None in E.
  apply (Permutation_NoDup (Permutation_cons_append (keys o) k)).
  now constructor.
Qed.

Lemma insertIndex_perm x l : Permutation (insertIndex x l) (x :: l).
Proof.
  induction l as [|y l IH]; simpl; [easy|].
  destruct (fst x <=? fst y)%N; [easy|].
  rewrite IH. apply perm_swap.
Qed.

Lemma sortIndex_perm l : Permutation (fold_right insertIndex [] l) l.
Proof.
  induction l as [|x l IH]; simpl; [easy|]. now rewrite insertIndex_perm, IH.
Qed.

Lemma indexProps_filter (o : object) :
  map snd (indexProps o) = filter (fun kv => isArrayIndex (fst kv)) o.
Proof.
  unfold indexProps, isArrayIndex. induction o as [|kv o IH]; simpl; [easy|].
  destruct (arrayIndex (fst kv)); simpl; now rewrite IH.
Qed.

Lemma filter_split_perm {A : Type} (p : A -> bool) (l : list A) :
  Permutation (filter p l ++ filter (fun x => negb (p x)) l) l.
Proof.
  induction l as [|a l IH]; simpl; [easy|].
  destruct (p a); simpl.
  - now apply perm_skip.
  - rewrite <- Permutation_middle. now apply perm_skip.
Qed.

(** [Object.entries] lists every own property once. *)
Lemma Object_entries_perm (o : object) : Permutation (Object_entries o) o.
Proof.
  unfold Object_entries.
  rewrite (Permutation_map snd (sortIndex_perm (indexProps o))), indexProps_filter.
  apply (filter_split_perm (fun kv => isArrayIndex (fst kv))).
Qed.

(** Without array-index keys it lists them in the order of their creation. *)
Lemma Object_entries_named (o : object) :
  (forall k, In k (keys o) -> isArrayIndex k = false) -> Object_entries o = o.
Proof.
  intros H. unfold Object_entries.
  assert (E : indexProps o = []).
  { unfold indexProps. induction o as [|kv o IH]; simpl; [easy|].
    assert (Hk : isArrayIndex (fst kv) = false) by (apply H; now left).
    unfold isArrayIndex in Hk. destruct (arrayIndex (fst kv)); [easy|].
    apply IH. intros k Hin. apply H. now right. }
  rewrite E. simpl. apply forallb_filter_id, forallb_forall.
  intros kv Hin. rewrite H; [easy|]. now apply in_map.
Qed.

(** ** The loop on events of the documented shape *)

Lemma texts_strings (l : list value) :
  forallb isString l = true -> exists ss, texts l = Some ss /\ l = map VStr ss.
Proof.
  induction l as [|v l IH]; simpl.
  - now exists [].
  - destruct v; try discriminate. simpl. intros H.
    destruct (IH H) as (ss & E & ->). exists (s :: ss). now rewrite E.
Qed.

Lemma productTexts_ids (ps : list value) :
  forallb isProduct ps = true ->
  exists ids, productTexts ps = Some ids
              /\ mapM (fun p => Get p "id") ps = Normal (map VStr ids).
Proof.
  induction ps as [|p ps IH]; simpl.
  - now exists [].
  - destruct p; try discriminate. simpl.
    destruct (lookup "id" props) as [[]|]; try discriminate. simpl. intros H.
    destruct (IH H) as (ids & E & Hm). exists (s :: ids). now rewrite E, Hm.
Qed.

Lemma Get_VObj (props : list (string * value)) (k : string) :
  Get (VObj props) k
  = Normal (match lookup k props with Some x => x | None => VUndefined end).
Proof. reflexivity. Qed.

(** The extraction on an event of the documented shape. *)
Lemma extractIds_shaped (event : value) :
  shaped event = true -> extractIds event = Normal (strings (idsOf (decode event))).
Proof.
  destruct event as [| | | | | |props]; try discriminate.
  unfold shaped, extractIds, idsOf, decode. rewrite !Get_VObj.
  cbn [bind name timestamp productIds data].
  intros H. apply andb_true_iff in H as [H Hdata].
  apply andb_true_iff in H as [_ Hids].
  destruct (lookup "productIds" props) as [pids|].
  - destruct pids; try discriminate. simpl in Hids.
    destruct (texts_strings _ Hids) as (ss & -> & ->). reflexivity.
  - cbn [ToBoolean nullish].
    destruct (lookup "data" props) as [d|]; [|reflexivity].
    destruct d as [| | | | | |dprops]; try discriminate.
    cbn [isData optional] in Hdata. apply andb_true_iff in Hdata as [Hps Hid].
    rewrite !Get_VObj. cbn [nullish decodeData products data_id bind].
    destruct (lookup "products" dprops) as [ps|].
    + destruct ps; try discriminate. simpl in Hps.
      destruct (productTexts_ids _ Hps) as (ids & -> & ->). reflexivity.
    + cbn [nullish bind ToBoolean].
      destruct (lookup "id" dprops) as [[]|]; try discriminate; simpl;
        [now destruct (s =? "")|reflexivity].
Qed.

Lemma Get_name_shaped (event : value) :
  shaped event = true ->
  Get event "name"
  = Normal (match name (decode event) with Some n => VStr n | None => VUndefined end).
Proof.
  destruct event as [| | | | | |props]; try discriminate. simpl. intros H.
  apply andb_true_iff in H as [H _]. apply andb_true_iff in H as [H _].
  apply andb_true_iff in H as [H _].
  now destruct (lookup "name" props) as [[]|].
Qed.

Lemma Get_timestamp_shaped (event : value) :
  shaped event = true ->
  Get event "timestamp"
  = Normal (match timestamp (decode event) with
            | Some r => VNum r
            | None => VUndefined
            end).
Proof.
  destruct event as [| | | | | |props]; try discriminate. simpl. intros H.
  apply andb_true_iff in H as [H _]. apply andb_true_iff in H as [H _].
  apply andb_true_iff in H as [_ H].
  now destruct (lookup "timestamp" props) as [[]|].
Qed.

(** An encoded event is of the documented shape, and decodes to itself. *)
Lemma shaped_encode (e : Event) : shaped (encode e) = true.
Proof.
  assert (Hs : forall l, forallb isString (map VStr l) = true)
    by (induction l; simpl; auto).
  assert (Hp : forall ps,
             forallb isProduct (map (fun i => VObj [("id", VStr i)]) ps) = true)
    by (induction ps; simpl; auto).
  destruct e as [n t p d].
  destruct n, t, p; simpl; rewrite ?Hs; simpl;
    (destruct d as [[ps i]|]; [|reflexivity]);
    destruct ps, i; simpl; now rewrite ?Hp.
Qed.

Lemma decode_encode (e : Event) : decode (encode e) = e.
Proof.
  assert (Hs : forall l, texts (map VStr l) = Some l)
    by (induction l as [|? ? IH]; simpl; [easy|now rewrite IH]).
  assert (Hp : forall ps,
             productTexts (map (fun i => VObj [("id", VStr i)]) ps) = Some ps)
    by (induction ps as [|? ? IH]; simpl; [easy|now rewrite IH]).
  destruct e as [n t p d].
  destruct n, t, p; simpl; rewrite ?Hs;
    (destruct d as [[ps i]|]; [|reflexivity]);
    destruct ps, i; simpl; now rewrite ?Hp.
Qed.

Lemma shaped_encode_all (evs : list Event) : forallb shaped (map encode evs) = true.
Proof.
  induction evs as [|e evs IH]; [easy|].
  cbn [map forallb]. now rewrite shaped_encode.
Qed.

Lemma decode_encode_all (evs : list Event) : map decode (map encode evs) = evs.
Proof.
  induction evs as [|e evs IH]; [easy|].
  cbn [map]. now rewrite decode_encode, IH.
Qed.

Section TypedLoop.

Variable host : Host.

Lemma foldM_accumulate (c : number) (l : list string) (scores : object) :
  foldM (accumulate host c) (map VStr l) scores = Normal (fold_left (add c) l scores).
Proof.
  revert scores. induction l as [|k l IH]; intros scores; simpl; [easy|].
  apply IH.
Qed.

(** On an event of the documented shape the body of the loop raises nothing
    and does [step]. *)
Lemma scoreEvent_shaped (now : Z) (st : object * list value) (event : value) :
  shaped event = true ->
  scoreEvent host now st event = Normal (step now st (decode event)).
Proof.
  intros H. destruct st as [scores purchased]. unfold scoreEvent, step.
  rewrite (extractIds_shaped _ H), (Get_name_shaped _ H), (Get_timestamp_shaped _ H).
  unfold isPurchase, contributionOf, weightOf, keyOf, timeOf, strings.
  destruct (name (decode event)) as [n|]; cbn [bind strictEquals fst snd].
  - destruct (n =? "Purchase"); [reflexivity|].
    destruct (timestamp (decode event));
      cbn [bind ToPropertyKey ToString ToNumber iterate];
      now rewrite foldM_accumulate.
  - destruct (timestamp (decode event));
      cbn [bind ToPropertyKey ToString ToNumber iterate];
      now rewrite foldM_accumulate.
Qed.

Lemma foldM_scoreEvent_shaped (now : Z) (events : list value)
    (st : object * list value) :
  forallb shaped events = true ->
  foldM (scoreEvent host now) events st
  = Normal (fold_left (step now) (map decode events) st).
Proof.
  revert st. induction events as [|v events IH]; intros st H; simpl; [easy|].
  simpl in H. apply andb_true_iff in H as [Hv H].
  rewrite (scoreEvent_shaped _ _ _ Hv). simpl. now apply IH.
Qed.

Lemma scoreEvents_shaped (now : Z) (events : list value) (limit : Z) :
  forallb shaped events = true ->
  scoreEvents host now events limit
  = Normal (slice (rank (fold_left (step now) (map decode events) ([], []))) limit).
Proof. intros H. unfold scoreEvents. now rewrite foldM_scoreEvent_shaped. Qed.

Lemma foldM_scoreEvent_encode (now : Z) (evs : list Event) (st : object * list value) :
  foldM (scoreEvent host now) (map encode evs) st = Normal (fold_left (step now) evs st).
Proof.
  now rewrite foldM_scoreEvent_shaped, decode_encode_all by apply shaped_encode_all.
Qed.

Lemma scoreEvents_encode (now : Z) (evs : list Event) (limit : Z) :
  scoreEvents host now (map encode evs) limit
  = Normal (slice (rank (fold_left (step now) evs ([], []))) limit).
Proof. unfold scoreEvents. now rewrite foldM_scoreEvent_encode. Qed.

End TypedLoop.

(** ** The accumulator after the loop *)

Lemma fold_add_feed (c : number) (l : list string) (o : object) :
  fold_left (add c) l o = feed o (map (fun i => (i, c)) l).
Proof.
  unfold feed. revert o. induction l as [|k l IH]; intros o; simpl; [easy|]. apply IH.
Qed.

Lemma feed_app (o : object) (l1 l2 : list (string * number)) :
  feed o (l1 ++ l2) = feed (feed o l1) l2.
Proof. unfold feed. apply fold_left_app. Qed.

Lemma fold_step (now : Z) (evs : list Event) (o : object) (p : list value) :
  fold_left (step now) evs (o, p)
  = (feed o (contributions now evs), p ++ map VStr (purchasedIds evs)).
Proof.
  revert o p. induction evs as [|e evs IH]; intros o p; simpl.
  - now rewrite app_nil_r.
  - unfold step at 2. unfold contributions, purchasedIds. simpl.
    destruct (isPurchase e); simpl; rewrite IH.
    + now rewrite map_app, app_assoc.
    + now rewrite feed_app, fold_add_feed.
Qed.

Lemma map_fst_contributions (now : Z) (evs : list Event) :
  map fst (contributions now evs) = scoredIds evs.
Proof.
  unfold contributions, scoredIds. induction evs as [|e evs IH]; simpl; [easy|].
  rewrite map_app, IH. f_equal. destruct (isPurchase e); [easy|].
  rewrite map_map. simpl. apply map_id.
Qed.

Lemma hasOwn_In (k : string) (o : object) : hasOwn k o = true <-> In k (keys o).
Proof.
  unfold hasOwn, keys. destruct (lookup k o) eqn:E.
  - split; [|easy]. intros _. apply lookup_In in E. now apply (in_map fst) in E.
  - split; [easy|]. intros H. now apply lookup_None in E.
Qed.

Lemma In_keys_add (c : number) (o : object) (k x : string) :
  In x (keys (add c o k)) <-> In x (keys o) \/ (x = k /\ k <> "__proto__").
Proof.
  unfold add, SetProperty. destruct (String.eqb_spec k "__proto__") as [->|Hne].
  - tauto.
  - rewrite keys_update. destruct (hasOwn k o) eqn:E.
    + apply hasOwn_In in E. split; [tauto|]. intros [H|[-> _]]; easy.
    + rewrite in_app_iff. simpl. split; intros [H|H]; try tauto.
      * destruct H as [->|[]]. tauto.
      * destruct H as [-> _]. tauto.
Qed.

Lemma NoDup_keys_add (c : number) (o : object) (k : string) :
  NoDup (keys o) -> NoDup (keys (add c o k)).
Proof.
  unfold add, SetProperty. destruct (k =? "__proto__"); [easy|].
  apply NoDup_keys_update.
Qed.

Lemma In_keys_feed (kcs : list (string * number)) (o : object) (x : string) :
  In x (keys (feed o kcs))
  <-> In x (keys o) \/ (In x (map fst kcs) /\ x <> "__proto__").
Proof.
  unfold feed. revert o. induction kcs as [|[k c] kcs IH]; intros o; simpl.
  - tauto.
  - rewrite IH, In_keys_add. simpl. split.
    + intros [[H|[-> H]]|[H1 H2]]; tauto.
    + intros [H|[[->|H1] H2]]; tauto.
Qed.

Lemma NoDup_keys_feed (kcs : list (string * number)) (o : object) :
  NoDup (keys o) -> NoDup (keys (feed o kcs)).
Proof.
  unfold feed. revert o. induction kcs as [|[k c] kcs IH]; intros o H; simpl; [easy|].
  now apply IH, NoDup_keys_add.
Qed.

Lemma hasOwn_mem (k : string) (o : object) : hasOwn k o = mem k (keys o).
Proof.
  unfold hasOwn, mem, keys. induction o as [|[k' v] o IH]; simpl; [easy|].
  rewrite (String.eqb_sym k k'). destruct (k' =? k); [easy|]. apply IH.
Qed.

(** The keys of the accumulator stand in the order in which the loop first
    met them. *)
Lemma keys_feed (kcs : list (string * number)) (o : object) :
  keys (feed o kcs) = keys o ++ firstSeen (keys o) (map fst kcs).
Proof.
  unfold feed. revert o. induction kcs as [|[k c] kcs IH]; intros o; simpl.
  - now rewrite app_nil_r.
  - rewrite IH. unfold add, SetProperty.
    destruct (k =? "__proto__"); simpl; [easy|].
    rewrite keys_update, <- hasOwn_mem.
    destruct (hasOwn k o); [easy|]. now rewrite <- app_assoc.
Qed.

(** The weight of every name other than "Purchase": a number from 1 to 20,
    or the member of [Object.prototype] of that name, which multiplies to
    [NaN]. *)
Lemma weight_positive (key : string) :
  key <> "Purchase" ->
  toNumber (coalesce (GetProperty EVENT_WEIGHTS key) DEFAULT_WEIGHT) = NaN
  \/ exists w, toNumber (coalesce (GetProperty EVENT_WEIGHTS key) DEFAULT_WEIGHT) = Fin w
               /\ (1 <= w <= 20)%R.
Proof.
  intros Hne. unfold GetProperty, EVENT_WEIGHTS. cbn [lookup].
  repeat match goal with
         | |- context [if ?a =? key then _ else _] =>
             destruct (String.eqb_spec a key);
             [ first [congruence | right; eexists; split; [reflexivity|lra]] | ]
         end.
  destruct (mem key Object_prototype_keys); simpl.
  - now left.
  - right. eexists. split; [reflexivity|lra].
Qed.

Lemma Math_pow_half_notNegative (x : number) : notNegative (Math_pow (Fin (1 / 2)) x).
Proof.
  destruct x as [|s|e]; simpl.
  - now left.
  - destruct (Rlt_dec 0 (1 / 2)); [|lra]. destruct (Req_dec_T (1 / 2) 1); [lra|].
    destruct (Rlt_dec (1 / 2) 1); [|lra]. destruct s; simpl.
    + right. now left.
    + right. right. exists 0%R. split; [easy|lra].
  - destruct (Req_dec_T e 0); [right; right; exists 1%R; split; [easy|lra]|].
    destruct (Rlt_dec 0 (1 / 2)); [|lra].
    apply clip_notNegative. unfold Rpower. left. apply exp_pos.
Qed.

Lemma recency_positive (now : Z) (t : number) :
  notNegative (recency (ageInDays now t)).
Proof. apply Math_pow_half_notNegative. Qed.

Lemma nmul_notNegative (w : R) (c : number) :
  (0 < w)%R -> notNegative c -> notNegative (nmul (Fin w) c).
Proof.
  intros Hw [->|[->|(r & -> & Hr)]]; simpl.
  - now left.
  - destruct (Req_dec_T w 0); [lra|]. unfold isNegative.
    destruct (Rlt_dec w 0); [lra|]. right. now left.
  - apply clip_notNegative. nra.
Qed.

Lemma contribution_positive (now : Z) (e : Event) :
  isPurchase e = false -> notNegative (contributionOf now e).
Proof.
  intros Hp. unfold contributionOf, times.
  assert (Hw : toNumber (weightOf e) = NaN
               \/ exists w, toNumber (weightOf e) = Fin w /\ (1 <= w <= 20)%R).
  { apply weight_positive. unfold isPurchase, keyOf in *.
    destruct (name e) as [n|]; [|easy]. now destruct (String.eqb_spec n "Purchase"). }
  destruct Hw as [->|(w & -> & Hw)]; [now left|].
  apply nmul_notNegative; [lra|apply recency_positive].
Qed.

Lemma contributions_positive (now : Z) (evs : list Event) :
  Forall (fun kc => notNegative (snd kc)) (contributions now evs).
Proof.
  unfold contributions. induction evs as [|e evs IH]; simpl; [easy|].
  apply Forall_app. split; [|easy].
  destruct (isPurchase e) eqn:E; [easy|].
  apply Forall_forall. intros kc Hin. apply in_map_iff in Hin as (i & <- & _).
  now apply contribution_positive.
Qed.

Lemma In_update (k k0 : string) (v v0 : jsval) (o : object) :
  In (k, v) (update k0 v0 o) -> (k, v) = (k0, v0) \/ In (k, v) o.
Proof.
  induction o as [|[k' v'] o IH]; simpl.
  - intros [E|[]]. now left.
  - destruct (k' =? k0); simpl; intros [E|H]; try tauto;
      try (left; now symmetry).
Qed.

Lemma settled_step (c : number) (v : jsval) :
  notNegative c -> (v = JUndefined \/ v = JBuiltin \/ settled v) ->
  settled (plus (or_else v (JNumber (Fin 0))) c).
Proof.
  intros Hc Hv. unfold or_else.
  assert (Hz : settled (plus (JNumber (Fin 0)) c)).
  { right. eexists. split; [reflexivity|].
    apply nadd_notNegative; [|easy]. right. right. exists 0%R. split; [easy|lra]. }
  destruct Hv as [->|[->|[->|(a & -> & Ha)]]]; simpl; try easy; try now left.
  destruct Ha as [->|[->|(r & -> & Hr)]]; [easy| |].
  - right. eexists. split; [reflexivity|].
    apply nadd_notNegative; [right; now left|easy].
  - destruct (Req_dec_T r 0); [easy|].
    right. eexists. split; [reflexivity|].
    apply nadd_notNegative; [|easy]. right. right. now exists r.
Qed.

Lemma settled_add (c : number) (o : object) (k : string) :
  notNegative c ->
  (forall x v, In (x, v) o -> settled v) ->
  forall x v, In (x, v) (add c o k) -> settled v.
Proof.
  intros Hc Ho x v. unfold add, SetProperty.
  destruct (k =? "__proto__"); [apply Ho|].
  intros H. apply In_update in H as [E|H]; [|now apply (Ho x)].
  injection E as -> ->. apply settled_step; [easy|].
  unfold GetProperty. destruct (lookup k o) eqn:E.
  - right. right. apply lookup_In in E. now apply (Ho k).
  - destruct (mem k Object_prototype_keys); tauto.
Qed.

Lemma settled_feed (kcs : list (string * number)) (o : object) :
  Forall (fun kc => notNegative (snd kc)) kcs ->
  (forall x v, In (x, v) o -> settled v) ->
  forall x v, In (x, v) (feed o kcs) -> settled v.
Proof.
  unfold feed. revert o. induction kcs as [|[k c] kcs IH]; intros o Hc Ho; simpl; [easy|].
  apply Forall_cons_iff in Hc as [Hc Hcs]. apply IH; [easy|].
  now apply settled_add.
Qed.

(** ** The ranking *)

Lemma Permutation_filter_compat {A : Type} (p : A -> bool) (l l' : list A) :
  Permutation l l' -> Permutation (filter p l) (filter p l').
Proof.
  induction 1 as [|a l l' _ IH|a b l|l l' l'' _ IH1 _ IH2]; simpl.
  - easy.
  - destruct (p a); [now apply perm_skip|easy].
  - destruct (p a), (p b); try easy. apply perm_swap.
  - now rewrite IH1.
Qed.

Lemma rank_perm (o : object) (p : list value) :
  Permutation (rank (o, p)) (filter (notPurchased p) o).
Proof.
  unfold rank. rewrite sort_perm. simpl.
  apply (Permutation_filter_compat (notPurchased p)), Object_entries_perm.
Qed.

Lemma Set_has_strings (l : list string) (x : string) :
  Set_has (map VStr l) x = true <-> In x l.
Proof.
  unfold Set_has. rewrite existsb_exists. split.
  - intros (v & Hin & Hv). apply in_map_iff in Hin as (s & <- & Hin).
    now apply String.eqb_eq in Hv as <-.
  - intros Hin. exists (VStr x). split; [now apply in_map|apply String.eqb_refl].
Qed.

Lemma NoDup_keys_filter (keep : string * jsval -> bool) (o : object) :
  NoDup (keys o) -> NoDup (keys (filter keep o)).
Proof.
  unfold keys. induction o as [|kv o IH]; simpl; [easy|]. intros H.
  apply NoDup_cons_iff in H as [Hkv H]. destruct (keep kv); simpl; [|now apply IH].
  constructor; [|now apply IH]. intros Hin. apply Hkv.
  apply in_map_iff in Hin as (b & E & Hb). apply filter_In in Hb as [Hb _].
  rewrite <- E. now apply in_map.
Qed.

(** The identifiers the ranking holds before its truncation: the keys of the
    accumulator that no purchase names, each once. *)
Lemma ranked_ids (o : object) (l : list string) :
  NoDup (keys o) ->
  NoDup (map fst (rank (o, map VStr l)))
  /\ forall x, In x (map fst (rank (o, map VStr l))) <-> In x (keys o) /\ ~ In x l.
Proof.
  intros Hnd.
  pose proof (Permutation_map fst (rank_perm o (map VStr l))) as Hp.
  split.
  - apply (Permutation_NoDup (Permutation_sym Hp)). now apply NoDup_keys_filter.
  - intros x. split.
    + intros Hin. apply (Permutation_in _ Hp) in Hin.
      apply in_map_iff in Hin as ([k v] & <- & Hin). apply filter_In in Hin as [Hin Hn].
      split; [now apply (in_map fst) in Hin|].
      unfold notPurchased in Hn. simpl in *. intros Hl.
      apply Set_has_strings in Hl. now rewrite Hl in Hn.
    + intros [Hin Hl]. apply (Permutation_in _ (Permutation_sym Hp)).
      apply in_map_iff in Hin as ([k v] & <- & Hin). apply in_map, filter_In.
      split; [easy|]. unfold notPurchased. simpl.
      destruct (Set_has (map VStr l) k) eqn:E; [|easy].
      now apply Set_has_strings in E.
Qed.

Section Claims.

Variable host : Host.

(** C1 (as amended). For every list of events of the documented shape none of
    whose scored identifiers is ["__proto__"], and every limit that is not
    negative, the ranking has exactly min(limit, n) entries, where n counts
    the distinct identifiers that an event other than a purchase carries and
    that no purchase names, whatever their accumulated score: an identifier
    whose score is 0 is ranked like any other. *)
Theorem ranking_length (now : Z) (events : list value) (limit : Z) :
  forallb shaped events = true ->
  (0 <= limit)%Z ->
  ~ In "__proto__" (scoredIds (map decode events)) ->
  exists ranked ids,
    scoreEvents host now events limit = Normal ranked
    /\ NoDup ids
    /\ (forall x, In x ids <->
          In x (scoredIds (map decode events))
          /\ ~ In x (purchasedIds (map decode events)))
    /\ List.length ranked = Nat.min (Z.to_nat limit) (List.length ids).
Proof.
  intros Hshaped Hlimit Hproto.
  set (evs := map decode events) in *.
  set (scores := feed [] (contributions now evs)).
  set (purchased := map VStr (purchasedIds evs)).
  assert (Hnd : NoDup (keys scores)) by (apply NoDup_keys_feed; constructor).
  destruct (ranked_ids scores (purchasedIds evs) Hnd) as [Hids Hin].
  exists (slice (rank (scores, purchased)) limit),
    (map fst (rank (scores, purchased))).
  rewrite (scoreEvents_shaped _ _ _ _ Hshaped).
  fold evs. rewrite fold_step. simpl.
  repeat split; try easy.
  - apply Hin in H. destruct H as [H _].
    apply In_keys_feed in H as [[]|[H _]]. now rewrite map_fst_contributions in H.
  - now apply Hin in H.
  - intros (Hs & Hp). apply Hin. split; [|easy].
    apply In_keys_feed. right. rewrite map_fst_contributions.
    split; [easy|]. now intros ->.
  - rewrite length_slice by easy. now rewrite length_map.
Qed.

(** The set of purchases only grows, and a purchase adds what its
    extraction yields. *)
Lemma scoreEvent_purchased (now : Z) (st st' : object * list value) (event : value) :
  scoreEvent host now st event = Normal st' -> incl (snd st) (snd st').
Proof.
  destruct st as [scores purchased]. unfold scoreEvent.
  destruct (extractIds event) as [ids|]; [|easy]. cbn [bind].
  destruct (Get event "name") as [name|]; [|easy]. cbn [bind].
  destruct (strictEquals name "Purchase").
  - destruct ids; try easy. intros [= <-]. simpl. now apply incl_appl.
  - destruct (ToPropertyKey host name) as [key|]; [|easy]. cbn [bind].
    destruct (Get event "timestamp") as [timestamp|]; [|easy]. cbn [bind].
    destruct (ToNumber host timestamp) as [t|]; [|easy]. cbn [bind].
    destruct (iterate ids) as [l|]; [|easy]. cbn [bind].
    destruct (foldM _ l scores) as [scores'|]; [|easy]. cbn [bind].
    now intros [= <-].
Qed.

Lemma foldM_scoreEvent_purchased (now : Z) (events : list value)
    (st st' : object * list value) :
  foldM (scoreEvent host now) events st = Normal st' -> incl (snd st) (snd st').
Proof.
  revert st. induction events as [|v events IH]; intros st; simpl.
  - now intros [= <-].
  - destruct (scoreEvent host now st v) as [st1|] eqn:E; [|easy]. cbn [bind].
    intros H. apply scoreEvent_purchased in E. apply IH in H.
    intros a Ha. now apply H, E.
Qed.

Lemma scoreEvent_purchase (now : Z) (scores : object) (purchased : list value)
    (event : value) (l : list value) :
  Get event "name" = Normal (VStr "Purchase") ->
  extractIds event = Normal (VArr l) ->
  scoreEvent host now (scores, purchased) event = Normal (scores, purchased ++ l).
Proof. intros Hname Hl. unfold scoreEvent. now rewrite Hl, Hname. Qed.

Lemma purchase_recorded (now : Z) (events : list value) (st st' : object * list value)
    (event : value) (l : list value) :
  foldM (scoreEvent host now) events st = Normal st' ->
  In event events ->
  Get event "name" = Normal (VStr "Purchase") ->
  extractIds event = Normal (VArr l) ->
  incl l (snd st').
Proof.
  intros H Hin Hname Hl. revert st H.
  induction events as [|v events IH]; intros st; [easy|]. simpl.
  destruct (scoreEvent host now st v) as [st1|] eqn:E; [|easy]. cbn [bind]. intros H.
  destruct Hin as [->|Hin]; [|now apply (IH Hin st1)].
  destruct st as [scores purchased].
  rewrite (scoreEvent_purchase _ _ _ _ _ Hname Hl) in E. injection E as <-.
  apply foldM_scoreEvent_purchased in H. intros a Ha. apply H. simpl.
  apply in_or_app. now right.
Qed.

(** C2 (as amended). In every list of parsed values on which scoring
    returns (as it does on every list of events of the documented shape), a
    purchase whose extraction yields the string [x] keeps [x] out of the
    ranking, whatever the other events contribute to [x]; and on a purchase
    the body of the loop leaves the accumulator as it was. (An identifier
    that a purchase holds as a number is compared, unconverted, with the keys
    of the accumulator, which are strings: it keeps nothing out.) *)
Theorem purchase_excludes (now : Z) (events : list value) (limit : Z)
    (event : value) (l : list value) (x : string) :
  In event events ->
  Get event "name" = Normal (VStr "Purchase") ->
  extractIds event = Normal (VArr l) ->
  In (VStr x) l ->
  (forall ranked,
      scoreEvents host now events limit = Normal ranked -> ~ In x (map fst ranked))
  /\ (forallb shaped events = true ->
      exists ranked, scoreEvents host now events limit = Normal ranked)
  /\ (forall scores purchased,
        scoreEvent host now (scores, purchased) event
        = Normal (scores, purchased ++ l)).
Proof.
  intros He Hname Hl Hx. split; [|split].
  - intros ranked. unfold scoreEvents.
    destruct (foldM (scoreEvent host now) events ([], [])) as [[scores purchased]|] eqn:Hst;
      [|easy].
    cbn [bind]. intros [= <-] Hin.
    apply in_map_iff in Hin as ([k s] & Hk & Hin). simpl in Hk. subst k.
    apply slice_incl in Hin. apply (Permutation_in _ (rank_perm scores purchased)) in Hin.
    apply filter_In in Hin as [_ Hkeep]. unfold notPurchased, Set_has in Hkeep.
    simpl in Hkeep.
    assert (E : existsb (fun v => match v with VStr s0 => s0 =? x | _ => false end)
                  purchased = true).
    { apply existsb_exists. exists (VStr x). split; [|apply String.eqb_refl].
      now apply (purchase_recorded now events ([], []) (scores, purchased) event l). }
    now rewrite E in Hkeep.
  - intros Hshaped. eexists. now apply scoreEvents_shaped.
  - intros scores purchased. now apply scoreEvent_purchase.
Qed.

(** C6 (as amended). On events of the documented shape the ranking is the
    list of all the entries available, cut by [slice(0, limit)]: every
    identifier in it is carried by an event other than a purchase and named by
    no purchase, and every such identifier other than ["__proto__"] is in it
    once. Limit 0 returns the empty list; a limit of at least the number of
    entries returns them all; a negative limit -k returns all but the last
    k. *)
Theorem truncation (now : Z) (events : list value) :
  forallb shaped events = true ->
  exists available,
    (forall limit,
        scoreEvents host now events limit = Normal (slice available limit))
    /\ NoDup (map fst available)
    /\ (forall x, In x (map fst available) ->
                  In x (scoredIds (map decode events))
                  /\ ~ In x (purchasedIds (map decode events)))
    /\ (forall x, x <> "__proto__" -> In x (scoredIds (map decode events)) ->
                  ~ In x (purchasedIds (map decode events)) ->
                  In x (map fst available))
    /\ scoreEvents host now events 0 = Normal []
    /\ (forall limit, (Z.of_nat (List.length available) <= limit)%Z ->
                      scoreEvents host now events limit = Normal available)
    /\ (forall limit, (limit < 0)%Z ->
                      scoreEvents host now events limit
                      = Normal (firstn (List.length available - Z.to_nat (- limit))
                                  available)).
Proof.
  intros Hshaped. set (evs := map decode events).
  set (scores := feed [] (contributions now evs)).
  assert (Hnd : NoDup (keys scores)) by (apply NoDup_keys_feed; constructor).
  destruct (ranked_ids scores (purchasedIds evs) Hnd) as [Hids Hin].
  exists (rank (scores, map VStr (purchasedIds evs))).
  assert (E : forall limit,
             scoreEvents host now events limit
             = Normal (slice (rank (scores, map VStr (purchasedIds evs))) limit)).
  { intros limit. rewrite (scoreEvents_shaped _ _ _ _ Hshaped). fold evs.
    now rewrite fold_step. }
  repeat split; try easy.
  - apply Hin in H. destruct H as [H _].
    apply In_keys_feed in H as [[]|[H _]]. now rewrite map_fst_contributions in H.
  - now apply Hin in H.
  - intros x Hx Hs Hp. apply Hin. split; [|easy].
    apply In_keys_feed. right. now rewrite map_fst_contributions.
  - now rewrite E, slice_zero.
  - intros limit Hl. now rewrite E, slice_all.
  - intros limit Hl. now rewrite E, slice_negative.
Qed.

(** C7 (as amended). On every list of events of the documented shape, any
    property of which may be missing, scoring returns a ranking: an event
    without a name weighs the default, one without a timestamp contributes
    [NaN], and one without identifiers leaves the accumulator and the
    purchases as they were. *)
Theorem scoring_total (now : Z) (events : list value) (limit : Z) :
  forallb shaped events = true ->
  (exists ranked, scoreEvents host now events limit = Normal ranked)
  /\ (forall event, In event events -> name (decode event) = None ->
                    weightOf (decode event) = DEFAULT_WEIGHT)
  /\ (forall event, In event events -> timestamp (decode event) = None ->
                    contributionOf now (decode event) = NaN)
  /\ (forall event st, In event events -> idsOf (decode event) = [] ->
                       scoreEvent host now st event = Normal st).
Proof.
  intros Hshaped. repeat split.
  - eexists. now apply scoreEvents_shaped.
  - intros v _ He. unfold weightOf, keyOf. now rewrite He.
  - intros v _ He. unfold contributionOf, timeOf, times. rewrite He. simpl.
    now destruct (toNumber (weightOf (decode v))).
  - intros v [scores purchased] Hv He.
    rewrite forallb_forall in Hshaped. rewrite (scoreEvent_shaped _ _ _ _ (Hshaped _ Hv)).
    unfold step. rewrite He. simpl. rewrite app_nil_r.
    now destruct (isPurchase (decode v)).
Qed.

End Claims.

(** ** Extraction *)

(** C3 (as amended). On an event of the documented shape, extraction tries
    the three shapes in the fixed order explicit list, product sub-records,
    single embedded identifier, and the first source that is present wins,
    empty or not: a present list of identifiers or of products is the result
    even when it is empty, and only an absent one falls through. An embedded
    identifier counts when it is not the empty string. Where no present source
    is empty this is the first non-empty source. *)
Theorem extraction_priority (event : value) :
  shaped event = true ->
  let e := decode event in
  (forall l, productIds e = Some l -> extractIds event = Normal (strings l))
  /\ (forall d ps,
        productIds e = None -> data e = Some d -> products d = Some ps ->
        extractIds event = Normal (strings ps))
  /\ (forall d i,
        productIds e = None -> data e = Some d -> products d = None ->
        data_id d = Some i -> i <> "" ->
        extractIds event = Normal (strings [i]))
  /\ (productIds e = None ->
      (data e = None
       \/ exists d, data e = Some d /\ products d = None
                    /\ (data_id d = None \/ data_id d = Some "")) ->
      extractIds event = Normal (strings []))
  /\ (productIds e <> Some [] ->
      (forall d, data e = Some d -> products d <> Some [] /\ data_id d <> Some "") ->
      extractIds event = Normal (strings (extract_spec e))).
Proof.
  intros Hshaped e. rewrite (extractIds_shaped _ Hshaped). fold e.
  unfold idsOf, extract_spec.
  repeat split.
  - now intros l ->.
  - now intros d ps -> -> ->.
  - intros d i -> -> -> -> Hi. now destruct (String.eqb_spec i "").
  - intros -> [->|(d & -> & -> & [->| ->])]; reflexivity.
  - intros Hp Hd. destruct (productIds e) as [[|i l]|]; try easy.
    destruct (data e) as [d|]; [|easy].
    destruct (Hd d eq_refl) as [Hps Hi].
    destruct (products d) as [[|j l]|]; try easy.
    destruct (data_id d) as [i|]; [|easy].
    destruct (String.eqb_spec i ""); [now subst|easy].
Qed.

(** ** Recency *)

Ltac decide_range :=
  pose proof huge_bound; pose proof tiny_bound;
  repeat match goal with
         | |- context [Rle_dec ?a ?b] => destruct (Rle_dec a b)
         | |- context [Rlt_dec ?a ?b] => destruct (Rlt_dec a b)
         | |- context [Req_dec_T ?a ?b] => destruct (Req_dec_T a b)
         end.

Lemma clip_mono (x y : R) : (x <= y)%R -> nleq (clip x) (clip y).
Proof. intros H. unfold clip. decide_range; simpl; first [lra|easy]. Qed.

Lemma overflow_mono (x y : R) : (x <= y)%R -> nleq (overflow x) (overflow y).
Proof. intros H. unfold overflow. decide_range; simpl; first [lra|easy]. Qed.

Lemma nleq_zero (c : number) : notNegative c -> nleq c (Fin 0) -> c = Fin 0.
Proof.
  intros [->|[->|(r & -> & Hr)]]; simpl; try easy. intros H. f_equal. lra.
Qed.



Lemma ln_half_negative : (ln (1 / 2) < 0)%R.
Proof. rewrite <- ln_1. apply ln_increasing; lra. Qed.

Lemma Rpower_half_decreasing (x y : R) :
  (x < y)%R -> (Rpower (1 / 2) y < Rpower (1 / 2) x)%R.
Proof.
  intros H. unfold Rpower. apply exp_increasing.
  pose proof ln_half_negative. nra.
Qed.

Lemma Rpower_half_le (x y : R) :
  (x <= y)%R -> (Rpower (1 / 2) y <= Rpower (1 / 2) x)%R.
Proof.
  intros [H| ->]; [left; now apply Rpower_half_decreasing|right; reflexivity].
Qed.

Lemma Rpower_half_0 : Rpower (1 / 2) 0 = 1%R.
Proof. apply Rpower_O. lra. Qed.

Lemma Rpower_half_pos (x : R) : (0 < Rpower (1 / 2) x)%R.
Proof. unfold Rpower. apply exp_pos. Qed.

(** The power of 0.5, at a finite and at an infinite exponent. *)
Lemma Math_pow_half_Fin (e : R) :
  Math_pow (Fin (1 / 2)) (Fin e) = clip (Rpower (1 / 2) e).
Proof.
  simpl. destruct (Req_dec_T e 0) as [->|].
  - rewrite Rpower_half_0. symmetry. pose proof huge_bound. pose proof tiny_bound.
    apply clip_Fin; lra.
  - destruct (Rlt_dec 0 (1 / 2)); [easy|lra].
Qed.

Lemma Math_pow_half_Inf :
  Math_pow (Fin (1 / 2)) (Inf false) = Fin 0
  /\ Math_pow (Fin (1 / 2)) (Inf true) = Inf false.
Proof.
  simpl. destruct (Rlt_dec 0 (1 / 2)); [|lra]. destruct (Req_dec_T (1 / 2) 1); [lra|].
  now destruct (Rlt_dec (1 / 2) 1); [|lra].
Qed.

Lemma Math_pow_half_antitone (x y : number) :
  nleq x y -> nleq (Math_pow (Fin (1 / 2)) y) (Math_pow (Fin (1 / 2)) x).
Proof.
  destruct Math_pow_half_Inf as [Hplus Hminus].
  destruct x as [|[]|a], y as [|[]|b]; intros H; cbn [nleq] in H; try easy;
    rewrite ?Math_pow_half_Fin, ?Hplus, ?Hminus; try easy.
  - destruct (clip_cases _ (Rlt_le _ _ (Rpower_half_pos b))) as [[-> _]|[[-> _]|[-> _]]];
      easy.
  - simpl. lra.
  - pose proof (Rpower_half_pos a).
    destruct (clip_cases _ (Rlt_le _ _ (Rpower_half_pos a))) as [[-> _]|[[-> _]|[-> _]]];
      simpl; try easy; lra.
  - now apply clip_mono, Rpower_half_le.
Qed.

Lemma ndiv_mono (d : R) (x y : number) :
  (0 < d)%R -> nleq x y -> nleq (ndiv x (Fin d)) (ndiv y (Fin d)).
Proof.
  intros Hd. assert (Hneg : isNegative d = false)
    by (unfold isNegative; destruct (Rlt_dec d 0); [lra|easy]).
  assert (Hcase : forall a, ndiv (Fin a) (Fin d) = clip (a / d))
    by (intros a; simpl; destruct (Req_dec_T d 0); [lra|easy]).
  assert (Hpos : (0 < / d)%R) by now apply Rinv_0_lt_compat.
  destruct x as [|[]|a], y as [|[]|b]; intros H; cbn [nleq] in H; try easy;
    rewrite ?Hcase; cbn [ndiv]; rewrite ?Hneg; cbn [xorb nleq]; try easy.
  - unfold clip. decide_range; easy.
  - unfold clip. decide_range; simpl; easy.
  - apply clip_mono. unfold Rdiv. nra.
Qed.

Lemma recency_antitone (x y : number) : nleq x y -> nleq (recency y) (recency x).
Proof.
  intros H. unfold recency, RECENCY_HALF_LIFE_DAYS.
  apply Math_pow_half_antitone, ndiv_mono; [lra|easy].
Qed.

Lemma ageInDays_antitone (now : Z) (t1 t2 : R) :
  (t1 <= t2)%R -> nleq (ageInDays now (Fin t2)) (ageInDays now (Fin t1)).
Proof.
  intros H. unfold ageInDays. apply ndiv_mono; [lra|].
  cbn [nsub]. apply overflow_mono. lra.
Qed.

(** The age of an event whose distance from [now] is in range. *)
Lemma ageInDays_Fin (now : Z) (t d : R) :
  (IZR now - t = d * 86400)%R ->
  (d = 0 \/ / 1000000 <= d <= 1000000 \/ - 1000000 <= d <= - / 1000000)%R ->
  ageInDays now (Fin t) = Fin d.
Proof.
  intros E Hd. pose proof huge_bound. pose proof tiny_bound.
  unfold ageInDays. cbn [nsub]. rewrite E.
  rewrite overflow_Fin by (destruct Hd as [->|[Hd|Hd]]; lra).
  cbn [ndiv]. destruct (Req_dec_T 86400 0); [lra|].
  replace (d * 86400 / 86400)%R with d by lra.
  destruct Hd as [->|Hd]; [apply clip_zero; lra|apply clip_Fin; lra].
Qed.

Lemma recency_at (a e : R) :
  (a = e * 7)%R -> (/ 1000000 <= e <= 1000000 \/ - 1000000 <= e <= - / 1000000)%R ->
  recency (Fin a) = clip (Rpower (1 / 2) e).
Proof.
  intros -> He. pose proof huge_bound. pose proof tiny_bound.
  unfold recency, RECENCY_HALF_LIFE_DAYS. cbn [ndiv].
  destruct (Req_dec_T 7 0); [lra|].
  replace (e * 7 / 7)%R with e by lra.
  rewrite clip_Fin by lra. apply Math_pow_half_Fin.
Qed.

Lemma recency_0 : recency (Fin 0) = Fin 1.
Proof.
  pose proof tiny_bound. unfold recency, RECENCY_HALF_LIFE_DAYS. cbn [ndiv].
  destruct (Req_dec_T 7 0); [lra|]. rewrite clip_zero by lra.
  simpl. now destruct (Req_dec_T 0 0).
Qed.

Lemma recency_7 : recency (Fin 7) = Fin (1 / 2).
Proof.
  pose proof huge_bound. pose proof tiny_bound.
  rewrite (recency_at 7 1) by lra. rewrite Rpower_1 by lra. apply clip_Fin; lra.
Qed.

(** From an exponent of 1076 on the power underflows, and to an exponent of
    -1024 it overflows. *)
Lemma recency_old (a : R) : (7532 <= a)%R -> recency (Fin a) = Fin 0.
Proof.
  intros Ha. apply nleq_zero; [apply Math_pow_half_notNegative|].
  assert (E : recency (Fin 7532) = Fin 0).
  { rewrite (recency_at 7532 1076) by lra. apply clip_zero.
    pose proof (Rpower_half_pos 1076) as Hp.
    assert (Hlt : (1075 < 1076)%R) by lra. apply Rpower_half_decreasing in Hlt.
    rewrite Rpower_half_tiny in Hlt. pose proof tiny_bound. lra. }
  rewrite <- E. now apply recency_antitone.
Qed.



Lemma recency_now (now : Z) : recency (ageInDays now (Fin (IZR now))) = Fin 1.
Proof.
  rewrite (ageInDays_Fin now (IZR now) 0) by (try lra; now left). apply recency_0.
Qed.

Lemma recency_week (now : Z) :
  recency (ageInDays now (Fin (IZR now - 7 * 86400))) = Fin (1 / 2).
Proof.
  rewrite (ageInDays_Fin now (IZR now - 7 * 86400) 7); [apply recency_7|lra|].
  right. left. split; [|lra].
  assert (/ 1000000 < 1)%R by (rewrite <- Rinv_1; apply Rinv_lt_contravar; lra). lra.
Qed.

Lemma recency_before (now : Z) (t : R) :
  (t + 7532 * 86400 <= IZR now)%R -> recency (ageInDays now (Fin t)) = Fin 0.
Proof.
  intros Ht. apply nleq_zero; [apply recency_positive|].
  rewrite <- (recency_old 7532) by lra. apply recency_antitone.
  rewrite <- (ageInDays_Fin now (IZR now - 7532 * 86400) 7532); [|lra|].
  - apply ageInDays_antitone. lra.
  - right. left. split; [|lra].
    assert (/ 1000000 < 1)%R by (rewrite <- Rinv_1; apply Rinv_lt_contravar; lra). lra.
Qed.


(** A weight the loop applies, times a factor in range. *)
Lemma times_weight (w r : R) :
  (1 <= w <= 20)%R -> (/ 2 <= r <= 1)%R -> times (JNumber (Fin w)) (Fin r) = Fin (w * r).
Proof.
  intros Hw Hr. pose proof huge_bound. pose proof tiny_bound.
  unfold times. cbn [toNumber nmul]. apply clip_Fin; nra.
Qed.


(** ** Ties *)

Lemma precedes_keys (x y : string) (o : object) :
  precedes x y (keys o) -> exists sx sy, precedes (x, sx) (y, sy) o.
Proof.
  intros (l1 & l2 & l3 & E). unfold keys in E.
  apply map_eq_app in E as (o1 & o' & -> & <- & E).
  apply map_eq_cons in E as ([x' sx] & o'' & -> & <- & E).
  apply map_eq_app in E as (o2 & o''' & -> & <- & E).
  apply map_eq_cons in E as ([y' sy] & o3 & -> & <- & <-).
  now exists sx, sy, o1, o2, o3.
Qed.

Lemma positive_tie (r : R) : positive (nsub (Fin r) (Fin r)) = false.
Proof.
  pose proof huge_bound. cbn [nsub]. rewrite overflow_Fin by lra. simpl.
  destruct (Rlt_dec 0 (r - r)); [lra|easy].
Qed.

Section MoreClaims.

Variable host : Host.

(** The accumulator holds its identifiers in first-seen order. *)
Lemma creation_order (now : Z) (events : list value)
    (scores : object) (purchased : list value) :
  forallb shaped events = true ->
  foldM (scoreEvent host now) events ([], []) = Normal (scores, purchased) ->
  keys scores = firstSeen [] (scoredIds (map decode events)).
Proof.
  intros Hshaped. rewrite (foldM_scoreEvent_shaped _ _ _ _ Hshaped), fold_step.
  intros [= <- _]. now rewrite keys_feed, map_fst_contributions.
Qed.

(** C5 (as amended). On events of the documented shape, where no scored
    identifier is an array index and every accumulated score is a number, two
    identifiers that end with the same score are ranked in the order in which
    the loop first met them, which is the order in which the accumulator
    received them. *)
Theorem ties_keep_first_seen_order (now : Z) (events : list value) (limit : Z)
    (scores : object) (purchased : list value) (ranked : list (string * jsval))
    (x y : string) (s : jsval) :
  forallb shaped events = true ->
  foldM (scoreEvent host now) events ([], []) = Normal (scores, purchased) ->
  scoreEvents host now events limit = Normal ranked ->
  (forall k, In k (scoredIds (map decode events)) -> isArrayIndex k = false) ->
  (forall k v, In (k, v) scores -> exists r, v = JNumber (Fin r)) ->
  precedes x y (firstSeen [] (scoredIds (map decode events))) ->
  In (x, s) ranked -> In (y, s) ranked ->
  precedes (x, s) (y, s) ranked.
Proof.
  intros Hshaped Hst Hranked Hindex Hnum Hxy Hx Hy.
  rewrite <- (creation_order _ _ _ _ Hshaped Hst) in Hxy.
  rewrite (foldM_scoreEvent_shaped _ _ _ _ Hshaped), fold_step in Hst. simpl in Hst.
  injection Hst as Hscores Hpurchased.
  rewrite (scoreEvents_shaped _ _ _ _ Hshaped), fold_step in Hranked. simpl in Hranked.
  rewrite Hscores, Hpurchased in Hranked. injection Hranked as <-.
  set (evs := map decode events) in *.
  assert (Hnd : NoDup (keys scores))
    by (rewrite <- Hscores; apply NoDup_keys_feed; constructor).
  assert (Hnamed : forall k, In k (keys scores) -> isArrayIndex k = false).
  { intros k Hk. apply Hindex. rewrite <- Hscores in Hk.
    apply In_keys_feed in Hk as [[]|[Hk _]]. now rewrite map_fst_contributions in Hk. }
  destruct (ranked_ids scores (purchasedIds evs) Hnd) as [Hids _].
  rewrite Hpurchased in Hids.
  assert (Hin : forall kv, In kv (slice (rank (scores, purchased)) limit) ->
                           In kv scores /\ notPurchased purchased kv = true).
  { intros kv H. apply slice_incl in H.
    apply (Permutation_in _ (rank_perm scores purchased)) in H.
    now apply filter_In in H. }
  destruct (Hin _ Hx) as [Hxs Hxp]. destruct (Hin _ Hy) as [Hys Hyp].
  apply precedes_keys in Hxy as (sx & sy & Hxy).
  assert (Ex : sx = s).
  { apply precedes_In in Hxy as [H _]. apply (In_lookup _ _ _ Hnd) in H.
    apply (In_lookup _ _ _ Hnd) in Hxs. congruence. }
  assert (Ey : sy = s).
  { apply precedes_In in Hxy as [_ H]. apply (In_lookup _ _ _ Hnd) in H.
    apply (In_lookup _ _ _ Hnd) in Hys. congruence. }
  subst sx sy.
  unfold slice in *. apply (precedes_firstn fst); [easy| |easy].
  unfold rank. simpl. rewrite (Object_entries_named scores Hnamed).
  apply sort_stable.
  - now apply precedes_filter.
  - destruct (Hnum _ _ Hxs) as (r & ->). apply positive_tie.
Qed.

(** C8 (as amended). A POST whose body is not JSON, or is the JSON [null], is
    answered 400 with the body [[]] and never reaches the scoring engine. A
    body that parses to a number, a string, a boolean or an array is read as
    a request without events: the engine is invoked on the empty list and the
    answer is 200 with the body [[]]. *)
Theorem malformed_body (now : Z) (req : request) :
  method req = "POST" ->
  (body req = SyntaxError \/ body req = Parsed VNull ->
   handler host now req = {| invoked := None; result := Respond 400 "[]" |})
  /\ (forall payload,
        body req = Parsed payload ->
        (exists b, payload = VBool b) \/ (exists r, payload = VNum r)
        \/ (exists s, payload = VStr s) \/ (exists l, payload = VArr l) ->
        handler host now req
        = {| invoked := Some ([], requestedItemsOf (query req));
             result := Respond 200 "[]" |}).
Proof.
  intros Hm. unfold handler. rewrite Hm. cbn [String.eqb Ascii.eqb Bool.eqb andb negb].
  split.
  - now intros [-> | ->].
  - intros payload -> Hp.
    assert (E : readEvents (Parsed payload) = Some (VArr [])).
    { destruct Hp as [[b ->]|[[r ->]|[[s ->]|[l ->]]]]; reflexivity. }
    rewrite E. cbn [logRequest iterate bind mapM filter].
    unfold scoreEvents. cbn [foldM bind]. unfold slice, rank.
    cbn [fst snd Object_entries indexProps flat_map fold_right map filter app sort].
    now rewrite firstn_nil.
Qed.

(** The positive part of C9: a name that is neither a key of the weight
    table nor a member of [Object.prototype] weighs the default. *)
Lemma default_weight (e : Event) :
  hasOwn (keyOf e) EVENT_WEIGHTS = false ->
  mem (keyOf e) Object_prototype_keys = false ->
  weightOf e = DEFAULT_WEIGHT.
Proof.
  intros Hown Hproto. unfold weightOf, GetProperty. unfold hasOwn in Hown.
  destruct (lookup (keyOf e) EVENT_WEIGHTS); [easy|]. now rewrite Hproto.
Qed.

Lemma requestedItemsOf_nonzero (q : query_value) : requestedItemsOf q <> 0%Z.
Proof.
  unfold requestedItemsOf. destruct (parseInt (queryText q)) as [n|]; [|easy].
  destruct (Z.eqb_spec n 0); easy.
Qed.

Lemma handler_invoked (now : Z) (req : request) (events : list value) (limit : Z) :
  invoked (handler host now req) = Some (events, limit) ->
  limit = requestedItemsOf (query req).
Proof.
  unfold handler.
  destruct ((method req =? "GET") && (url req =? "/health")); [easy|].
  destruct (negb (method req =? "POST")); [easy|].
  destruct (readEvents (body req)) as [events'|]; [|easy].
  destruct (logRequest host events'); [|easy].
  destruct events'; try easy. simpl. now intros [= _ <-].
Qed.

(** C10. A [requestedItems] parameter that parses to 0 gives the limit 3,
    as an absent one and one that does not parse do; the limit is never 0, and
    it is the limit of every call of the scoring engine. *)
Theorem requestedItems_zero_is_default (now : Z) (req : request)
    (events : list value) (limit : Z) :
  invoked (handler host now req) = Some (events, limit) ->
  limit = requestedItemsOf (query req)
  /\ limit <> 0%Z
  /\ (parseInt (queryText (query req)) = Some 0%Z -> limit = 3%Z)
  /\ (parseInt (queryText (query req)) = None -> limit = 3%Z)
  /\ requestedItemsOf (QString "0") = 3%Z
  /\ requestedItemsOf QAbsent = 3%Z.
Proof.
  intros H. apply handler_invoked in H. subst limit.
  repeat split; try reflexivity.
  - apply requestedItemsOf_nonzero.
  - intros E. unfold requestedItemsOf. now rewrite E.
  - intros E. unfold requestedItemsOf. now rewrite E.
Qed.

End MoreClaims.

(** ** Concrete requests *)

(** The numbers of the weight table. *)
Lemma weight_range (key : string) (w : R) :
  coalesce (GetProperty EVENT_WEIGHTS key) DEFAULT_WEIGHT = JNumber (Fin w) ->
  (1 <= w <= 20 \/ w = - 100)%R.
Proof.
  unfold GetProperty, EVENT_WEIGHTS. cbn [lookup].
  repeat match goal with
         | |- context [if ?a =? key then _ else _] =>
             destruct (a =? key); [intros [= <-]; lra|]
         end.
  destruct (mem key Object_prototype_keys); [discriminate|].
  intros [= <-]. lra.
Qed.

Lemma contribution_fresh (n : string) (ids : list string) (w : R) :
  weightOf (fresh n ids) = JNumber (Fin w) ->
  contributionOf clock (fresh n ids) = Fin (w * 1).
Proof.
  intros Hw. unfold contributionOf, timeOf. rewrite Hw. simpl timestamp.
  rewrite recency_now. apply weight_range in Hw.
  pose proof huge_bound. pose proof tiny_bound.
  unfold times. cbn [toNumber nmul]. apply clip_Fin; lra.
Qed.

Lemma contribution_ancient (n : string) (ids : list string) (w : R) :
  weightOf (ancient n ids) = JNumber (Fin w) ->
  contributionOf clock (ancient n ids) = Fin 0.
Proof.
  intros Hw. unfold contributionOf, timeOf. rewrite Hw. cbn [timestamp ancient].
  rewrite recency_before by (unfold clock; lra).
  unfold times. cbn [toNumber nmul]. pose proof tiny_bound. apply clip_zero. lra.
Qed.

(** Evaluates sums, products and comparisons of numbers in range. *)
Ltac decide_reals :=
  pose proof huge_bound; pose proof tiny_bound;
  repeat (rewrite ?overflow_Fin, ?clip_Fin by lra;
          cbn -[IZR Rplus Rminus Rmult slice overflow clip];
          repeat match goal with
                 | |- context [Rlt_dec ?a ?b] => destruct (Rlt_dec a b); try lra
                 | |- context [Req_dec_T ?a ?b] => destruct (Req_dec_T a b); try lra
                 end).

(** Rewrites a call of [scoreEvents] on encoded events into the ranking of
    the accumulator the loop builds. *)
Ltac run_loop :=
  rewrite ?scoreEvents_encode, ?foldM_scoreEvent_encode, ?fold_step;
  unfold contributions, purchasedIds;
  cbn [flat_map isPurchase name fresh String.eqb Ascii.eqb Bool.eqb idsOf
       productIds map app].

Lemma scenarioC_ranked (limit : Z) :
  on_every_host (fun host =>
    scoreEvents host clock (map encode scenarioC) limit
    = Normal (slice [("p1", JNumber (Fin (0 + 10 * 1)));
                     ("p2", JNumber (Fin (0 + 5 * 1)))] limit)).
Proof.
  intros host. unfold scenarioC. run_loop.
  rewrite (contribution_fresh "ProductAddToCart" ["p1"] 10 eq_refl).
  rewrite (contribution_fresh "ProductDetailsView" ["p2"] 5 eq_refl).
  unfold feed. now decide_reals.
Qed.

Lemma ancient_state :
  on_every_host (fun host =>
    foldM (scoreEvent host clock) [encode (ancient "ProductAddToCart" ["p1"])] ([], [])
    = Normal ([("p1", JNumber (Fin 0))], [])
    /\ scoreEvents host clock [encode (ancient "ProductAddToCart" ["p1"])] 3
       = Normal [("p1", JNumber (Fin 0))]).
Proof.
  intros host.
  change [encode (ancient "ProductAddToCart" ["p1"])]
    with (map encode [ancient "ProductAddToCart" ["p1"]]).
  run_loop. cbn [ancient String.eqb Ascii.eqb Bool.eqb productIds map app].
  rewrite (contribution_ancient "ProductAddToCart" ["p1"] 10 eq_refl).
  unfold feed. decide_reals. replace (0 + 0)%R with 0%R by lra.
  decide_reals. now split.
Qed.

(** C1, counterexample. Scenario C with the limit -1: two distinct
    identifiers are scored and none is purchased, and the ranking has one
    entry, which is not min(-1, 2). And an event stamped with the time 0,
    with the limit 3: the recency factor has underflowed, the accumulated
    score of [p1] is 0, so the claim counts no identifier, and the ranking
    has one entry, which is not min(3, 0). *)
Lemma ranking_length_counterexample :
  on_every_host (fun host =>
    (scoredIds scenarioC = ["p1"; "p2"]
     /\ purchasedIds scenarioC = []
     /\ exists ranked,
          scoreEvents host clock (map encode scenarioC) (-1) = Normal ranked
          /\ Z.of_nat (List.length ranked) = 1%Z
          /\ Z.of_nat (List.length ranked) <> Z.min (-1) 2)
    /\ (foldM (scoreEvent host clock) [encode (ancient "ProductAddToCart" ["p1"])]
          ([], [])
        = Normal ([("p1", JNumber (Fin 0))], [])
        /\ exists ranked,
             scoreEvents host clock [encode (ancient "ProductAddToCart" ["p1"])] 3
             = Normal ranked
             /\ Z.of_nat (List.length ranked) = 1%Z
             /\ Z.of_nat (List.length ranked) <> Z.min 3 0)).
Proof.
  intros host. split.
  - repeat split. eexists. split; [apply scenarioC_ranked|]. easy.
  - destruct (ancient_state host) as [Hst Hranked].
    split; [exact Hst|]. eexists. split; [exact Hranked|]. easy.
Qed.

(** C1, witness: scenario C with the limit 1. *)
Lemma ranking_length_witness :
  on_every_host (fun host =>
    exists ranked ids,
      scoreEvents host clock (map encode scenarioC) 1 = Normal ranked
      /\ NoDup ids
      /\ (forall x, In x ids <->
            In x (scoredIds scenarioC) /\ ~ In x (purchasedIds scenarioC))
      /\ List.length ranked = Nat.min (Z.to_nat 1) (List.length ids)).
Proof.
  intros host.
  pose proof (ranking_length host clock (map encode scenarioC) 1) as W.
  rewrite decode_encode_all in W. apply W.
  - reflexivity.
  - lia.
  - simpl. intros [H|[H|[]]]; discriminate.
Defined.

(** C2, counterexample. The product 1 is viewed under the string "1" and
    purchased under the number 1: the extraction of the purchase yields the
    identifier 1, and "1" is ranked. *)
Lemma purchase_counterexample :
  on_every_host (fun host =>
    Get purchaseOfNumber "name" = Normal (VStr "Purchase")
    /\ extractIds purchaseOfNumber = Normal (VArr [VNum 1])
    /\ scoreEvents host clock
         [encode (fresh "ProductDetailsView" ["1"]); purchaseOfNumber] 3
       = Normal [("1", JNumber (Fin (0 + 5 * 1)))]).
Proof.
  intros host. split; [reflexivity|]. split; [reflexivity|].
  unfold scoreEvents. cbn [foldM].
  rewrite (scoreEvent_shaped host clock _ _ (shaped_encode _)), decode_encode.
  cbn [bind]. unfold step.
  cbn [isPurchase name fresh String.eqb Ascii.eqb Bool.eqb idsOf productIds fst snd
       fold_left].
  rewrite (contribution_fresh "ProductDetailsView" ["1"] 5 eq_refl).
  rewrite (scoreEvent_purchase host clock _ _ purchaseOfNumber [VNum 1] eq_refl eq_refl).
  cbn [bind]. unfold add. decide_reals. reflexivity.
Qed.

(** C2, witness: scenario B, where [p1] is purchased and added to the cart. *)
Lemma purchase_excludes_witness :
  on_every_host (fun host =>
    (forall ranked,
        scoreEvents host clock (map encode scenarioB) 3 = Normal ranked ->
        ~ In "p1" (map fst ranked))
    /\ (forallb shaped (map encode scenarioB) = true ->
        exists ranked, scoreEvents host clock (map encode scenarioB) 3 = Normal ranked)
    /\ (forall scores purchased,
          scoreEvent host clock (scores, purchased) (encode (fresh "Purchase" ["p1"]))
          = Normal (scores, purchased ++ [VStr "p1"]))).
Proof.
  intros host.
  apply (purchase_excludes host clock (map encode scenarioB) 3
           (encode (fresh "Purchase" ["p1"])) [VStr "p1"] "p1").
  - now left.
  - reflexivity.
  - reflexivity.
  - now left.
Defined.

(** C3, counterexample. The explicit list is present and empty: the
    extraction returns it and does not fall through to the embedded
    identifier, which the first non-empty source would be. *)
Lemma extraction_counterexample :
  extractIds (encode emptyList) = Normal (strings [])
  /\ extract_spec emptyList = ["p1"].
Proof. split; reflexivity. Qed.

(** C3, witness: the same event. *)
Lemma extraction_priority_witness :
  extractIds (encode emptyList) = Normal (strings []).
Proof.
  exact (proj1 (extraction_priority (encode emptyList) eq_refl) [] eq_refl).
Defined.



(** C5, counterexample. Both identifiers end with the same score; the
    accumulator received "2" first, and the ranking lists "1" first. *)
Lemma ties_counterexample :
  on_every_host (fun host =>
    foldM (scoreEvent host clock) (map encode indexIds) ([], [])
    = Normal ([("2", JNumber (Fin (0 + 5 * 1))); ("1", JNumber (Fin (0 + 5 * 1)))], [])
    /\ scoreEvents host clock (map encode indexIds) 3
       = Normal [("1", JNumber (Fin (0 + 5 * 1))); ("2", JNumber (Fin (0 + 5 * 1)))]).
Proof.
  intros host. unfold indexIds. run_loop.
  rewrite (contribution_fresh "ProductDetailsView" ["2"; "1"] 5 eq_refl).
  unfold feed. decide_reals. now split.
Qed.

Lemma namedIds_state :
  on_every_host (fun host =>
    foldM (scoreEvent host clock) (map encode namedIds) ([], [])
    = Normal ([("a", JNumber (Fin (0 + 5 * 1))); ("b", JNumber (Fin (0 + 5 * 1)))], [])
    /\ scoreEvents host clock (map encode namedIds) 3
       = Normal [("a", JNumber (Fin (0 + 5 * 1))); ("b", JNumber (Fin (0 + 5 * 1)))]).
Proof.
  intros host. unfold namedIds. run_loop.
  rewrite (contribution_fresh "ProductDetailsView" ["a"; "b"] 5 eq_refl).
  unfold feed. decide_reals. now split.
Qed.

(** C5, witness: "a" and "b" tie and stay in first-seen order. *)
Lemma ties_keep_first_seen_order_witness :
  on_every_host (fun host =>
    precedes ("a", JNumber (Fin (0 + 5 * 1))) ("b", JNumber (Fin (0 + 5 * 1)))
      [("a", JNumber (Fin (0 + 5 * 1))); ("b", JNumber (Fin (0 + 5 * 1)))]).
Proof.
  intros host. destruct (namedIds_state host) as [Hst Hranked].
  apply (ties_keep_first_seen_order host clock (map encode namedIds) 3 _ _ _ "a" "b" _
           eq_refl Hst Hranked).
  - intros k [<-|[<-|[]]]; reflexivity.
  - intros k v [[= <- <-]|[[= <- <-]|[]]]; now eexists.
  - now exists [], [], [].
  - now left.
  - right. now left.
Defined.

(** The identifier "__proto__" never reaches the ranking: the assignment
    of line 40 goes to the setter every object inherits, which ignores a
    number. *)
Lemma proto_is_dropped :
  on_every_host (fun host =>
    scoreEvents host clock [encode (fresh "ProductAddToCart" ["__proto__"])] 3
    = Normal []).
Proof.
  intros host.
  change [encode (fresh "ProductAddToCart" ["__proto__"])]
    with (map encode [fresh "ProductAddToCart" ["__proto__"]]).
  run_loop. reflexivity.
Qed.

(** C6, counterexample. The limit -1 is not positive, and the ranking of an
    event with two identifiers is not empty. *)
Lemma truncation_counterexample :
  on_every_host (fun host =>
    scoreEvents host clock [encode (fresh "ProductAddToCart" ["p1"; "p2"])] (-1)
    = Normal [("p1", JNumber (Fin (0 + 10 * 1)))]).
Proof.
  intros host.
  change [encode (fresh "ProductAddToCart" ["p1"; "p2"])]
    with (map encode [fresh "ProductAddToCart" ["p1"; "p2"]]).
  run_loop.
  rewrite (contribution_fresh "ProductAddToCart" ["p1"; "p2"] 10 eq_refl).
  unfold feed. now decide_reals.
Qed.

(** C6, witness: scenario C with the limits 0, 2 and -1. *)
Lemma truncation_witness :
  on_every_host (fun host =>
    exists available,
      scoreEvents host clock (map encode scenarioC) 0 = Normal []
      /\ scoreEvents host clock (map encode scenarioC) 2 = Normal available
      /\ scoreEvents host clock (map encode scenarioC) (-1)
         = Normal (firstn (List.length available - 1) available)).
Proof.
  intros host.
  destruct (truncation host clock (map encode scenarioC) eq_refl)
    as (available & Hslice & _ & _ & _ & Hzero & Hall & Hneg).
  exists available. split; [exact Hzero|]. split.
  - apply Hall. pose proof (Hslice 5%Z) as E.
    rewrite (scenarioC_ranked 5 host) in E. injection E as E.
    apply (f_equal (@List.length _)) in E.
    rewrite !length_slice in E by lia. simpl List.length in E. lia.
  - apply (Hneg (-1)%Z). lia.
Defined.

(** C7, counterexample. An array that holds [null] where an event should
    be, and a purchase whose [productIds] is a string and not an array, make
    the engine raise a [TypeError]; the handler does not catch it. *)
Lemma scoring_counterexample :
  on_every_host (fun host =>
    scoreEvents host clock [VNull] 3 = Throw TypeError
    /\ scoreEvents host clock [stringIds] 3 = Throw TypeError
    /\ handler host clock (post (Parsed (VObj [("events", VArr [stringIds])])) QAbsent)
       = {| invoked := Some ([stringIds], 3%Z); result := Crash TypeError |}).
Proof. intros host. repeat split; reflexivity. Qed.

(** C7, witness: events with missing properties. *)
Lemma scoring_total_witness :
  on_every_host (fun host =>
    exists ranked, scoreEvents host clock sparse 3 = Normal ranked).
Proof.
  intros host. exact (proj1 (scoring_total host clock sparse 3 eq_refl)).
Defined.

(** C8, counterexample. The body [5] is JSON and not an object: the answer
    is 200 and the scoring engine was invoked. *)
Lemma malformed_body_counterexample :
  on_every_host (fun host =>
    handler host clock (post (Parsed (VNum 5)) QAbsent)
    = {| invoked := Some ([], 3%Z); result := Respond 200 "[]" |}).
Proof.
  intros host. reflexivity.
Qed.

(** C8, witness: a body that is not JSON. *)
Lemma malformed_body_witness :
  on_every_host (fun host =>
    handler host clock (post SyntaxError QAbsent)
    = {| invoked := None; result := Respond 400 "[]" |}).
Proof.
  intros host.
  apply (proj1 (malformed_body host clock (post SyntaxError QAbsent) eq_refl)).
  now left.
Defined.

(** C9, at the failing input. The name "constructor" is not a key of the
    weight table, yet the read of the table finds the member that every
    object inherits: the contribution is [NaN], where the default weight
    would contribute 1 * 1. *)
Theorem inherited_name_is_not_default :
  hasOwn "constructor" EVENT_WEIGHTS = false
  /\ weightOf (fresh "constructor" ["p1"]) = JBuiltin
  /\ contributionOf clock (fresh "constructor" ["p1"]) = NaN
  /\ times DEFAULT_WEIGHT (recency (ageInDays clock (Fin (IZR clock)))) = Fin (1 * 1)
  /\ on_every_host (fun host =>
       scoreEvents host clock [encode (fresh "constructor" ["p1"])] 3
       = Normal [("p1", JNumber NaN)]).
Proof.
  do 3 (split; [reflexivity|]). split.
  - rewrite recency_now. apply times_weight; lra.
  - intros host.
    change [encode (fresh "constructor" ["p1"])]
      with (map encode [fresh "constructor" ["p1"]]).
    run_loop. reflexivity.
Qed.

(** C10, witness: [POST /recommend?requestedItems=0] with the body [{}]. *)
Lemma requestedItems_zero_is_default_witness :
  on_every_host (fun host =>
    invoked (handler host clock (post (Parsed (VObj [])) (QString "0")))
    = Some ([], 3%Z)
    /\ parseInt "0" = Some 0%Z
    /\ 3%Z <> 0%Z).
Proof.
  intros host. split; [reflexivity|]. split; [reflexivity|].
  apply (requestedItems_zero_is_default host clock
           (post (Parsed (VObj [])) (QString "0")) [] 3%Z).
  reflexivity.
Defined.

(** * More of the engine *)

(** ** The order of the ranking *)

Lemma positive_compareScores (a b : string * jsval) :
  (exists r, snd a = JNumber (Fin r)) -> (exists r, snd b = JNumber (Fin r)) ->
  positive (compareScores a b) = true <-> (scoreOf a < scoreOf b)%R.
Proof.
  intros (ra & Ha) (rb & Hb). unfold compareScores, scoreOf. rewrite Ha, Hb.
  cbn [toNumber nsub]. unfold overflow. pose proof huge_bound.
  destruct (Rle_dec huge (rb - ra)); [simpl; split; intros; [lra|easy]|].
  destruct (Rle_dec (rb - ra) (- huge)); [simpl; split; intros; [easy|lra]|].
  simpl. destruct (Rlt_dec 0 (rb - ra)); split; intros; try easy; lra.
Qed.

Lemma insert_descending (x : string * jsval) (l : list (string * jsval)) :
  (forall e, In e (x :: l) -> exists r, snd e = JNumber (Fin r)) ->
  StronglySorted (fun a b => (scoreOf b <= scoreOf a)%R) l ->
  StronglySorted (fun a b => (scoreOf b <= scoreOf a)%R) (insert compareScores x l).
Proof.
  intros Hnum Hs. induction Hs as [|y l Hs IH Hy]; simpl.
  - constructor; constructor.
  - assert (Hx : exists r, snd x = JNumber (Fin r)) by (apply Hnum; now left).
    assert (Hy' : exists r, snd y = JNumber (Fin r)) by (apply Hnum; right; now left).
    pose proof (positive_compareScores x y Hx Hy') as Hc.
    destruct (positive (compareScores x y)).
    + assert (Hlt : (scoreOf x < scoreOf y)%R) by now apply Hc.
      constructor.
      * apply IH. intros e [<-|He]; apply Hnum; [now left|right; now right].
      * apply (Permutation_Forall (Permutation_sym (insert_perm compareScores x l))).
        constructor; [lra|easy].
    + assert (Hge : (scoreOf y <= scoreOf x)%R).
      { destruct (Rlt_dec (scoreOf x) (scoreOf y)) as [H|H]; [|lra].
        apply Hc in H. discriminate. }
      constructor; [now constructor|]. constructor; [easy|].
      apply (Forall_impl _ (P := fun b => (scoreOf b <= scoreOf y)%R)); [|easy].
      intros b Hb. lra.
Qed.

Lemma sort_descending (l : list (string * jsval)) :
  (forall e, In e l -> exists r, snd e = JNumber (Fin r)) ->
  StronglySorted (fun a b => (scoreOf b <= scoreOf a)%R) (sort compareScores l).
Proof.
  induction l as [|x l IH]; intros Hnum; [constructor|].
  change (sort compareScores (x :: l)) with (insert compareScores x (sort compareScores l)).
  apply insert_descending.
  - intros e [<-|He]; [apply Hnum; now left|].
    apply Hnum. right. now apply (Permutation_in e (sort_perm compareScores l)).
  - apply IH. intros e He. apply Hnum. now right.
Qed.

Lemma StronglySorted_precedes {A : Type} (R : A -> A -> Prop) (x y : A) (l : list A) :
  StronglySorted R l -> precedes x y l -> R x y.
Proof.
  intros Hs (l1 & l2 & l3 & ->). induction l1 as [|a l1 IH]; simpl in Hs.
  - apply StronglySorted_inv in Hs as [_ Hs]. rewrite Forall_forall in Hs.
    apply Hs. apply in_or_app. right. now left.
  - apply StronglySorted_inv in Hs as [Hs _]. now apply IH.
Qed.

Lemma StronglySorted_firstn {A : Type} (R : A -> A -> Prop) (n : nat) (l : list A) :
  StronglySorted R l -> StronglySorted R (firstn n l).
Proof.
  intros Hs. revert n. induction Hs as [|a l Hs IH Ha]; intros [|n]; simpl;
    try constructor; [apply IH|].
  rewrite Forall_forall in *. intros b Hb. apply Ha. now apply In_firstn in Hb.
Qed.

Lemma NoDup_firstn_keys {A B : Type} (f : A -> B) (n : nat) (l : list A) :
  NoDup (map f l) -> NoDup (map f (firstn n l)).
Proof.
  revert n. induction l as [|a l IH]; intros [|n] H; simpl; try constructor.
  - apply NoDup_cons_iff in H as [Ha _]. intros Hin. apply Ha.
    apply in_map_iff in Hin as (b & <- & Hb). apply in_map. now apply In_firstn in Hb.
  - apply IH. now apply NoDup_cons_iff in H.
Qed.

(** ** The accumulator on any list of parsed values *)

(** What every assignment of line 40 keeps, the loop keeps. *)
Section Invariant.

Variable host : Host.
Variable Inv : object -> Prop.
Hypothesis Inv_SetProperty : forall o k v, Inv o -> Inv (SetProperty o k v).

Lemma foldM_accumulate_keeps (c : number) (l : list value) (o o' : object) :
  Inv o -> foldM (accumulate host c) l o = Normal o' -> Inv o'.
Proof.
  revert o. induction l as [|id l IH]; intros o Ho; simpl.
  - now intros [= <-].
  - unfold accumulate at 1. destruct (ToPropertyKey host id) as [k|]; [|easy].
    simpl. apply IH. now apply Inv_SetProperty.
Qed.

Lemma scoreEvent_keeps (now : Z) (st st' : object * list value) (event : value) :
  Inv (fst st) -> scoreEvent host now st event = Normal st' -> Inv (fst st').
Proof.
  destruct st as [scores purchased]. unfold scoreEvent. intros Ho.
  destruct (extractIds event) as [ids|]; [|easy]. simpl.
  destruct (Get event "name") as [name|]; [|easy]. simpl.
  destruct (strictEquals name "Purchase").
  - destruct ids; try easy. now intros [= <-].
  - destruct (ToPropertyKey host name) as [key|]; [|easy]. simpl.
    destruct (Get event "timestamp") as [timestamp|]; [|easy]. simpl.
    destruct (ToNumber host timestamp) as [t|]; [|easy]. simpl.
    destruct (iterate ids) as [l|]; [|easy]. simpl.
    destruct (foldM _ l scores) as [scores'|] eqn:E; [|easy]. simpl.
    intros [= <-]. now apply (foldM_accumulate_keeps _ _ _ _ Ho E).
Qed.

Lemma foldM_scoreEvent_keeps (now : Z) (events : list value)
    (st st' : object * list value) :
  Inv (fst st) -> foldM (scoreEvent host now) events st = Normal st' ->
  Inv (fst st').
Proof.
  revert st. induction events as [|v events IH]; intros st Ho; simpl.
  - now intros [= <-].
  - destruct (scoreEvent host now st v) as [st1|] eqn:E; [|easy]. simpl.
    apply IH. now apply (scoreEvent_keeps _ _ _ _ Ho E).
Qed.

End Invariant.

Lemma SetProperty_NoDup (o : object) (k : string) (v : jsval) :
  NoDup (keys o) -> NoDup (keys (SetProperty o k v)).
Proof.
  unfold SetProperty. destruct (k =? "__proto__"); [easy|]. apply NoDup_keys_update.
Qed.

Lemma SetProperty_no_proto (o : object) (k : string) (v : jsval) :
  ~ In "__proto__" (keys o) -> ~ In "__proto__" (keys (SetProperty o k v)).
Proof.
  unfold SetProperty. destruct (String.eqb_spec k "__proto__") as [->|Hk]; [easy|].
  rewrite keys_update. destruct (hasOwn k o); [easy|].
  intros Ho Hin. apply in_app_or in Hin as [Hin|[->|[]]]; [now apply Ho|now apply Hk].
Qed.

Section AnyEvents.

Variable host : Host.

Lemma foldM_scoreEvent_NoDup (now : Z) (events : list value)
    (st st' : object * list value) :
  NoDup (keys (fst st)) -> foldM (scoreEvent host now) events st = Normal st' ->
  NoDup (keys (fst st')).
Proof.
  apply (foldM_scoreEvent_keeps host (fun o => NoDup (keys o)) SetProperty_NoDup).
Qed.

(** X1. On every list of parsed values for which the engine returns, the ranking
    lists no identifier twice, pairs every identifier with the score the
    accumulator holds for it, lists no identifier that the purchases hold as a
    string, and has at most [limit] entries when the limit is not negative. *)
Theorem ranking_entries (now : Z) (events : list value) (limit : Z)
    (scores : object) (purchased : list value) (ranked : list (string * jsval)) :
  foldM (scoreEvent host now) events ([], []) = Normal (scores, purchased) ->
  scoreEvents host now events limit = Normal ranked ->
  NoDup (map fst ranked)
  /\ (forall x s, In (x, s) ranked ->
                  lookup x scores = Some s /\ ~ In (VStr x) purchased)
  /\ ((0 <= limit)%Z -> (Z.of_nat (List.length ranked) <= limit)%Z).
Proof.
  intros Hst Hranked.
  assert (Hnd : NoDup (keys scores)).
  { apply (foldM_scoreEvent_NoDup now events ([], []) (scores, purchased));
      [constructor|exact Hst]. }
  unfold scoreEvents in Hranked. rewrite Hst in Hranked. simpl in Hranked.
  injection Hranked as <-.
  pose proof (rank_perm scores purchased) as Hp.
  split; [|split].
  - unfold slice. apply NoDup_firstn_keys.
    apply (Permutation_NoDup (Permutation_sym (Permutation_map fst Hp))).
    now apply NoDup_keys_filter.
  - intros x s Hin. apply slice_incl in Hin. apply (Permutation_in _ Hp) in Hin.
    apply filter_In in Hin as [Hin Hkeep]. split; [now apply In_lookup|].
    intros Hpur. unfold notPurchased, Set_has in Hkeep. simpl in Hkeep.
    assert (E : existsb (fun v => match v with VStr s0 => s0 =? x | _ => false end)
                  purchased = true).
    { apply existsb_exists. exists (VStr x). split; [easy|apply String.eqb_refl]. }
    now rewrite E in Hkeep.
  - intros Hlimit. rewrite length_slice by easy. lia.
Qed.

(** X2. On every list of parsed values for which the engine returns, when every
    accumulated score is a number (none is [NaN] or a text), the ranking is in
    descending order of score: no entry stands before an entry with a greater
    score. *)
Theorem ranking_descending (now : Z) (events : list value) (limit : Z)
    (scores : object) (purchased : list value) (ranked : list (string * jsval))
    (x y : string) (sx sy : R) :
  foldM (scoreEvent host now) events ([], []) = Normal (scores, purchased) ->
  scoreEvents host now events limit = Normal ranked ->
  (forall k v, In (k, v) scores -> exists r, v = JNumber (Fin r)) ->
  precedes (x, JNumber (Fin sx)) (y, JNumber (Fin sy)) ranked ->
  (sy <= sx)%R.
Proof.
  intros Hst Hranked Hnum Hxy.
  unfold scoreEvents in Hranked. rewrite Hst in Hranked. simpl in Hranked.
  injection Hranked as <-. unfold slice, rank in Hxy. simpl in Hxy.
  apply (StronglySorted_precedes (fun a b => (scoreOf b <= scoreOf a)%R)) in Hxy;
    [exact Hxy|].
  apply StronglySorted_firstn, sort_descending.
  intros [k v] Hin. apply filter_In in Hin as [Hin _].
  apply (Permutation_in _ (Object_entries_perm scores)) in Hin.
  now apply (Hnum k).
Qed.

End AnyEvents.

(** ** One identifier at a time *)

Lemma GetProperty_add (c : number) (o : object) (k x : string) :
  x <> "__proto__" ->
  GetProperty (add c o k) x
  = if k =? x then plus (or_else (GetProperty o x) (JNumber (Fin 0))) c
    else GetProperty o x.
Proof.
  intros Hx. unfold add, SetProperty.
  destruct (String.eqb_spec k "__proto__") as [->|Hk].
  - destruct (String.eqb_spec "__proto__" x); [congruence|easy].
  - unfold GetProperty at 1. rewrite lookup_update.
    destruct (String.eqb_spec k x) as [->|Hne]; [reflexivity|].
    reflexivity.
Qed.

(** The value the accumulator holds for [x] depends on the contributions to
    [x] alone. *)
Lemma GetProperty_feed (kcs : list (string * number)) (o : object) (x : string) :
  x <> "__proto__" ->
  GetProperty (feed o kcs) x = value_after (GetProperty o x) (contributionsTo x kcs).
Proof.
  intros Hx. unfold feed, contributionsTo, value_after. revert o.
  induction kcs as [|[k c] kcs IH]; intros o; simpl; [easy|].
  rewrite IH, (GetProperty_add c o k x Hx).
  now destruct (k =? x).
Qed.

Lemma or_else_number (n : number) :
  n <> NaN -> or_else (JNumber n) (JNumber (Fin 0)) = JNumber n.
Proof.
  unfold or_else. destruct n as [|s|a]; simpl; [easy|easy|].
  intros _. destruct (Req_dec_T a 0) as [->|]; reflexivity.
Qed.

(** A sum with a finite number is [NaN] only when it starts from [NaN]. *)
Lemma nadd_Fin_defined (n : number) (r : R) : n <> NaN -> nadd n (Fin r) <> NaN.
Proof.
  destruct n as [|s|a]; simpl; try easy. intros _. unfold overflow.
  destruct (Rle_dec huge (a + r)); [easy|]. now destruct (Rle_dec (a + r) (- huge)).
Qed.

Lemma value_after_number (cs : list number) (n : number) :
  n <> NaN ->
  Forall (fun c => exists r, c = Fin r) cs ->
  value_after (JNumber n) cs = JNumber (fold_left nadd cs n).
Proof.
  unfold value_after. intros Hn H. revert n Hn.
  induction H as [|c cs (r & ->) _ IH]; intros n Hn; simpl; [easy|].
  rewrite (or_else_number n Hn). simpl. apply IH. now apply nadd_Fin_defined.
Qed.

Lemma value_after_falsy (v : jsval) (cs : list number) :
  truthy v = false -> cs <> [] ->
  Forall (fun c => exists r, c = Fin r) cs ->
  value_after v cs = JNumber (total cs).
Proof.
  intros Hv Hcs H. destruct cs as [|c cs]; [easy|]. unfold total.
  assert (Hz : Fin 0 <> NaN) by easy.
  rewrite <- (value_after_number (c :: cs) (Fin 0) Hz H).
  unfold value_after. simpl. unfold or_else at 2 4. rewrite Hv. simpl.
  now destruct (Req_dec_T 0 0).
Qed.

Lemma contributionsTo_nonempty (x : string) (kcs : list (string * number)) :
  In x (map fst kcs) -> contributionsTo x kcs <> [].
Proof.
  unfold contributionsTo. intros Hin. apply in_map_iff in Hin as ([k c] & <- & Hin).
  intros E. apply map_eq_nil in E.
  assert (H : In (k, c) (filter (fun kc => fst kc =? k) kcs)).
  { apply filter_In. split; [easy|apply String.eqb_refl]. }
  simpl in E. now rewrite E in H.
Qed.

Lemma not_inherited_not_proto (x : string) :
  mem x Object_prototype_keys = false -> x <> "__proto__".
Proof. now intros H ->. Qed.

Section OneIdentifier.

Variable host : Host.

(** X3. On events of the documented shape, an event that is a purchase or does
    not carry the identifier [x] leaves the score of [x] as it was. *)
Theorem score_untouched (now : Z) (st : object * list value) (event : value)
    (x : string) :
  shaped event = true ->
  x <> "__proto__" ->
  isPurchase (decode event) = true \/ ~ In x (idsOf (decode event)) ->
  exists st',
    scoreEvent host now st event = Normal st'
    /\ GetProperty (fst st') x = GetProperty (fst st) x.
Proof.
  intros Hs Hx Hcase. eexists. split; [now apply scoreEvent_shaped|].
  unfold step. destruct (isPurchase (decode event)) eqn:Hp; [reflexivity|].
  destruct Hcase as [|Hnot]; [easy|]. simpl.
  rewrite fold_add_feed, (GetProperty_feed _ _ _ Hx).
  unfold contributionsTo.
  assert (E : filter (fun kc : string * number => fst kc =? x)
                (map (fun i => (i, contributionOf now (decode event)))
                   (idsOf (decode event))) = []).
  { induction (idsOf (decode event)) as [|i l IH]; simpl; [easy|].
    destruct (String.eqb_spec i x) as [->|_].
    - exfalso. apply Hnot. now left.
    - apply IH. intros H. apply Hnot. now right. }
  now rewrite E.
Qed.

(** X4. On events of the documented shape, the score accumulated for an
    identifier that is not the name of a member of [Object.prototype], and whose
    contributions are all numbers, is the sum of these contributions, one for
    each time an event other than a purchase carries it (scenario D of the
    specification). *)
Theorem score_is_sum (now : Z) (events : list value) (x : string) :
  forallb shaped events = true ->
  mem x Object_prototype_keys = false ->
  In x (scoredIds (map decode events)) ->
  (forall c, In c (contributionsTo x (contributions now (map decode events))) ->
             exists r, c = Fin r) ->
  exists scores purchased,
    foldM (scoreEvent host now) events ([], []) = Normal (scores, purchased)
    /\ GetProperty scores x
       = JNumber (total (contributionsTo x (contributions now (map decode events)))).
Proof.
  intros Hshaped Hmem Hin Hnum. do 2 eexists.
  split; [now rewrite (foldM_scoreEvent_shaped _ _ _ _ Hshaped), fold_step|].
  rewrite (GetProperty_feed _ _ _ (not_inherited_not_proto _ Hmem)).
  apply value_after_falsy.
  - unfold GetProperty. cbn [lookup]. now rewrite Hmem.
  - apply contributionsTo_nonempty. now rewrite map_fst_contributions.
  - now apply Forall_forall.
Qed.

(** X5. A score that is [NaN] is forgotten: on events of the documented shape,
    when the accumulator holds [NaN] for an identifier and later events
    contribute numbers to it, its score is the sum of the later contributions
    alone. *)
Theorem nan_is_forgotten (now : Z) (before after : list value) (x : string)
    (scores0 : object) (purchased0 : list value) :
  forallb shaped before = true ->
  forallb shaped after = true ->
  foldM (scoreEvent host now) before ([], []) = Normal (scores0, purchased0) ->
  GetProperty scores0 x = JNumber NaN ->
  In x (scoredIds (map decode after)) ->
  (forall c, In c (contributionsTo x (contributions now (map decode after))) ->
             exists r, c = Fin r) ->
  exists scores purchased,
    foldM (scoreEvent host now) (before ++ after) ([], []) = Normal (scores, purchased)
    /\ GetProperty scores x
       = JNumber (total (contributionsTo x (contributions now (map decode after)))).
Proof.
  intros Hb Ha Hst Hnan Hin Hnum.
  assert (Hx : x <> "__proto__").
  { intros ->. assert (Hnd : lookup "__proto__" scores0 = None).
    { rewrite (foldM_scoreEvent_shaped _ _ _ _ Hb), fold_step in Hst.
      injection Hst as <- _. apply lookup_None. intros H.
      apply In_keys_feed in H as [[]|[_ H]]. now apply H. }
    unfold GetProperty in Hnan. now rewrite Hnd in Hnan. }
  assert (Hall : forallb shaped (before ++ after) = true)
    by (rewrite forallb_app; now rewrite Hb, Ha).
  rewrite (foldM_scoreEvent_shaped _ _ _ _ Hall), map_app, fold_left_app.
  rewrite (foldM_scoreEvent_shaped _ _ _ _ Hb) in Hst. injection Hst as ->.
  do 2 eexists. split; [now rewrite fold_step|].
  rewrite (GetProperty_feed _ _ _ Hx), Hnan.
  apply value_after_falsy.
  - reflexivity.
  - apply contributionsTo_nonempty. now rewrite map_fst_contributions.
  - now apply Forall_forall.
Qed.

End OneIdentifier.

(** ** What the engine raises, and what it never ranks *)

Section NeverRanked.

Variable host : Host.

(** X6. Whatever the list of parsed values, the identifier "__proto__" is never
    ranked: the assignment of line 40 to this key goes to the setter that every
    object inherits, which stores nothing. *)
Theorem proto_never_ranked (now : Z) (events : list value) (limit : Z)
    (ranked : list (string * jsval)) :
  scoreEvents host now events limit = Normal ranked ->
  ~ In "__proto__" (map fst ranked).
Proof.
  unfold scoreEvents.
  destruct (foldM (scoreEvent host now) events ([], [])) as [[scores purchased]|] eqn:Hst;
    [|easy].
  simpl. intros [= <-] Hin.
  apply (foldM_scoreEvent_keeps host (fun o => ~ In "__proto__" (keys o))
           SetProperty_no_proto) in Hst; [|easy].
  apply Hst. apply in_map_iff in Hin as ([k v] & E & Hin). simpl in E. subst k.
  apply slice_incl in Hin. apply (Permutation_in _ (rank_perm scores purchased)) in Hin.
  apply filter_In in Hin as [Hin _]. now apply (in_map fst) in Hin.
Qed.

End NeverRanked.

Lemma value_induction (P : value -> Prop) :
  P VUndefined -> P VNull -> (forall b, P (VBool b)) -> (forall r, P (VNum r)) ->
  (forall s, P (VStr s)) -> (forall l, Forall P l -> P (VArr l)) ->
  (forall props, P (VObj props)) -> forall v, P v.
Proof.
  intros Hu Hn Hb Hr Hs Ha Ho. fix IH 1.
  intros [| | b | r | s | l | props];
    [exact Hu|exact Hn|apply Hb|apply Hr|apply Hs| |apply Ho].
  apply Ha. induction l as [|x l IHl]; constructor; [apply IH|exact IHl].
Qed.

Lemma ToString_raises (host : Host) (v : value) (e : error) :
  ToString host v = Throw e -> e = TypeError.
Proof.
  revert e.
  induction v as [| | b | r | s | l IHl | props] using value_induction;
    intros e; simpl; try discriminate.
  - induction IHl as [|x l Hx _ IH]; [discriminate|].
    destruct (match x with VUndefined | VNull => Normal "" | _ => ToString host x end)
      as [sx|ex] eqn:Ex.
    + cbn [bind]. destruct l as [|y l']; [discriminate|].
      match goal with
      | |- context [bind ?c _] => destruct c as [t|et] eqn:Et
      end; cbn [bind]; [discriminate|].
      intros [= <-]. now apply IH.
    + cbn [bind]. intros [= <-]. destruct x; try discriminate; now apply Hx.
  - destruct (hasOwn "toString" props); [now intros [= <-]|discriminate].
Qed.

Lemma Get_raises (v : value) (k : string) (e : error) :
  Get v k = Throw e -> e = TypeError.
Proof. destruct v; simpl; congruence. Qed.

Lemma mapM_raises {A B : Type} (f : A -> completion B) (l : list A) (e : error) :
  (forall a e', f a = Throw e' -> e' = TypeError) ->
  mapM f l = Throw e -> e = TypeError.
Proof.
  intros Hf. revert e. induction l as [|a l IH]; intros e; simpl; [discriminate|].
  destruct (f a) eqn:Ea; cbn [bind].
  - destruct (mapM f l); cbn [bind]; [discriminate|]. intros [= <-]. now apply IH.
  - intros [= <-]. now apply (Hf a).
Qed.

Lemma foldM_raises {A S : Type} (f : S -> A -> completion S) (l : list A) (s : S)
    (e : error) :
  (forall s' a e', f s' a = Throw e' -> e' = TypeError) ->
  foldM f l s = Throw e -> e = TypeError.
Proof.
  intros Hf. revert s. induction l as [|a l IH]; intros s; simpl; [discriminate|].
  destruct (f s a) eqn:Ea; cbn [bind]; [apply IH|].
  intros [= <-]. now apply (Hf s a).
Qed.

Lemma ToNumber_raises (host : Host) (v : value) (e : error) :
  ToNumber host v = Throw e -> e = TypeError.
Proof.
  destruct v; try discriminate; unfold ToNumber;
    (destruct (ToString host _) eqn:E; cbn [bind]; [discriminate|]);
    intros [= <-]; now apply ToString_raises in E.
Qed.

(** When the read of the products raises. *)
Lemma mapM_Get_id (ps : list value) :
  match mapM (fun p => Get p "id") ps with
  | Normal _ => forall p, In p ps -> nullish p = false
  | Throw e => e = TypeError /\ exists p, In p ps /\ nullish p = true
  end.
Proof.
  induction ps as [|p ps IH]; simpl; [easy|].
  destruct (Get p "id") eqn:Ep; cbn [bind].
  - assert (Hp : nullish p = false) by (destruct p; easy).
    destruct (mapM (fun p => Get p "id") ps); cbn [bind].
    + intros q [<-|Hq]; [easy|now apply IH].
    + destruct IH as [-> (q & Hq & Hn)]. split; [easy|]. exists q. split; [now right|easy].
  - split; [now apply Get_raises in Ep|]. exists p. split; [now left|]. now destruct p.
Qed.

Lemma extractIds_raises (event : value) (e : error) :
  extractIds event = Throw e -> e = TypeError.
Proof.
  unfold extractIds.
  destruct (Get event "productIds") as [productIds|] eqn:E1; cbn [bind];
    [|intros [= <-]; now apply Get_raises in E1].
  destruct (ToBoolean productIds); [discriminate|].
  destruct (Get event "data") as [data|] eqn:E2; cbn [bind];
    [|intros [= <-]; now apply Get_raises in E2].
  destruct (nullish data) eqn:Hd; cbn [bind ToBoolean]; [discriminate|].
  destruct (Get data "products") as [products|] eqn:E3; cbn [bind];
    [|intros [= <-]; now apply Get_raises in E3].
  destruct (nullish products) eqn:Hp; cbn [bind ToBoolean].
  - destruct (Get data "id") as [id|] eqn:E4; cbn [bind];
      [now destruct (ToBoolean id)|intros [= <-]; now apply Get_raises in E4].
  - destruct products as [| | | | |ps|]; cbn [bind]; try (now intros [= <-]).
    pose proof (mapM_Get_id ps) as H.
    destruct (mapM (fun p => Get p "id") ps); cbn [bind ToBoolean]; [discriminate|].
    intros [= <-]. easy.
Qed.

(** X7. The extraction raises exactly on an event that is [null], and on one
    whose [productIds] is falsy and whose [data.products] is neither absent nor
    [null] and is not an array of values other than [null]. *)
Theorem extraction_raises (event : value) :
  extractIds event = Throw TypeError
  <-> nullish event = true
      \/ (ToBoolean (read event "productIds") = false
          /\ nullish (read (read event "data") "products") = false
          /\ forall ps, read (read event "data") "products" = VArr ps ->
                        exists p, In p ps /\ nullish p = true).
Proof.
  unfold extractIds.
  destruct event as [| | b | r | s | l | props];
    try (split; [now left|reflexivity]);
    try (cbn; split; [discriminate|intros [H|(_ & H & _)]; discriminate H]).
  rewrite !Get_VObj. cbn [bind read].
  destruct (ToBoolean (match lookup "productIds" props with
                       | Some x => x | None => VUndefined end)) eqn:Hids.
  { split; [discriminate|intros [H|(H & _)]; discriminate H]. }
  destruct (match lookup "data" props with Some x => x | None => VUndefined end)
    as [| | b | r | s | l | dprops];
    try (split; [discriminate|intros [H|(_ & H & _)]; discriminate H]).
  rewrite !Get_VObj. cbn [nullish bind read].
  destruct (match lookup "products" dprops with Some x => x | None => VUndefined end)
    as [| | b | r | s | ps | pprops]; cbn [nullish bind ToBoolean].
  1, 2: split;
    [ cbn; match goal with |- (if ?c then _ else _) = _ -> _ => destruct c end;
      discriminate
    | intros [H|(_ & H & _)]; discriminate H ].
  1, 2, 3, 5: split; [intros _; right; repeat split; discriminate|reflexivity].
  pose proof (mapM_Get_id ps) as H.
  destruct (mapM (fun p => Get p "id") ps) as [ids|e]; cbn [bind ToBoolean].
  - split; [discriminate|]. intros [Hn|(_ & _ & Hps)]; [discriminate|].
    destruct (Hps ps eq_refl) as (p & Hp & Hnull). rewrite (H p Hp) in Hnull. discriminate.
  - destruct H as [-> Hps]. split; [|reflexivity]. intros _. right.
    repeat split. now intros ps' [= <-].
Qed.

Section Raises.

Variable host : Host.

Lemma iterate_raises (v : value) (e : error) : iterate v = Throw e -> e = TypeError.
Proof. destruct v; simpl; congruence. Qed.

Lemma accumulate_raises (c : number) (scores : object) (id : value) (e : error) :
  accumulate host c scores id = Throw e -> e = TypeError.
Proof.
  unfold accumulate, ToPropertyKey. destruct (ToString host id) eqn:E; cbn [bind];
    [discriminate|]. intros [= <-]. now apply ToString_raises in E.
Qed.

Lemma scoreEvent_raises (now : Z) (st : object * list value) (event : value)
    (e : error) :
  scoreEvent host now st event = Throw e -> e = TypeError.
Proof.
  destruct st as [scores purchased]. unfold scoreEvent.
  destruct (extractIds event) as [ids|] eqn:E1; cbn [bind];
    [|intros [= <-]; now apply extractIds_raises in E1].
  destruct (Get event "name") as [name|] eqn:E2; cbn [bind];
    [|intros [= <-]; now apply Get_raises in E2].
  destruct (strictEquals name "Purchase").
  { destruct ids; congruence. }
  unfold ToPropertyKey.
  destruct (ToString host name) as [key|] eqn:E3; cbn [bind];
    [|intros [= <-]; now apply ToString_raises in E3].
  destruct (Get event "timestamp") as [timestamp|] eqn:E4; cbn [bind];
    [|intros [= <-]; now apply Get_raises in E4].
  destruct (ToNumber host timestamp) as [t|] eqn:E5; cbn [bind];
    [|intros [= <-]; now apply ToNumber_raises in E5].
  destruct (iterate ids) as [l|] eqn:E6; cbn [bind];
    [|intros [= <-]; now apply iterate_raises in E6].
  destruct (foldM _ l scores) eqn:E7; cbn [bind]; [discriminate|].
  intros [= <-]. apply (foldM_raises _ _ _ _ (accumulate_raises _) E7).
Qed.

(** X8. Whatever the list of parsed values, the only exception the engine raises
    is a [TypeError]. *)
Theorem engine_raises (now : Z) (events : list value) (limit : Z) (e : error) :
  scoreEvents host now events limit = Throw e -> e = TypeError.
Proof.
  unfold scoreEvents.
  destruct (foldM (scoreEvent host now) events ([], [])) eqn:E; cbn [bind];
    [discriminate|].
  intros [= <-]. apply (foldM_raises _ _ _ _ (scoreEvent_raises now) E).
Qed.

(** X9. A list that holds [null] (or [undefined]) where an event should be makes
    the engine raise a [TypeError], wherever it stands in the list. *)
Theorem nullish_event_raises (now : Z) (events : list value) (limit : Z)
    (event : value) :
  In event events -> nullish event = true ->
  scoreEvents host now events limit = Throw TypeError.
Proof.
  intros Hin Hnull. unfold scoreEvents.
  assert (H : forall st, foldM (scoreEvent host now) events st = Throw TypeError).
  { induction events as [|v events IH]; intros st; [easy|]. simpl.
    destruct (scoreEvent host now st v) as [st'|e] eqn:E; cbn [bind].
    - destruct Hin as [->|Hin]; [|now apply IH].
      destruct st as [scores purchased]. now destruct event.
    - now apply scoreEvent_raises in E as ->. }
  now rewrite H.
Qed.

End Raises.

Lemma value_after_text (v : jsval) (cs : list number) :
  v = JBuiltin \/ v = JText -> cs <> [] -> value_after v cs = JText.
Proof.
  unfold value_after. revert v. induction cs as [|c cs IH]; intros v Hv Hcs; [easy|].
  simpl. assert (E : plus (or_else v (JNumber (Fin 0))) c = JText)
    by (destruct Hv as [-> | ->]; reflexivity).
  rewrite E. destruct cs as [|c' cs]; [reflexivity|]. apply IH; [now right|easy].
Qed.

Lemma value_after_positive (v : jsval) (cs : list number) :
  v = JUndefined \/ (exists c, v = JNumber c /\ notNegative c) ->
  Forall notNegative cs -> cs <> [] ->
  exists c, value_after v cs = JNumber c /\ notNegative c.
Proof.
  unfold value_after. intros Hv Hcs. revert v Hv.
  induction Hcs as [|c cs Hc _ IH]; intros v Hv Hne; [easy|]. simpl.
  assert (Hs : settled (plus (or_else v (JNumber (Fin 0))) c)).
  { apply settled_step; [easy|]. destruct Hv as [->|Hv]; [now left|].
    right. right. now right. }
  assert (Hn : exists c', plus (or_else v (JNumber (Fin 0))) c = JNumber c'
                          /\ notNegative c').
  { destruct Hs as [E|Hs]; [|easy].
    destruct Hv as [->|(a & -> & Ha)]; [discriminate|].
    unfold or_else in E. destruct (truthy (JNumber a)); discriminate. }
  destruct Hn as (c' & -> & Hc').
  destruct cs as [|c'' cs]; [now exists c'|].
  apply IH; [right; now exists c'|easy].
Qed.

(** ** The handler around the engine *)

Lemma nameIs_shaped (s : string) (event : value) :
  shaped event = true ->
  nameIs s event = match name (decode event) with Some n => n =? s | None => false end.
Proof.
  intros H. unfold nameIs. rewrite (Get_name_shaped _ H).
  now destruct (name (decode event)).
Qed.

Lemma mapM_logScore (ranked : list (string * jsval)) :
  mapM logScore ranked
  = if forallb isScore ranked then Normal (map (fun _ => tt) ranked) else Throw TypeError.
Proof.
  induction ranked as [|[k v] ranked IH]; [reflexivity|]. simpl. rewrite IH.
  unfold logScore, isScore. simpl. destruct v; try reflexivity. simpl.
  now destruct (forallb _ ranked).
Qed.

Section Logging.

Variable host : Host.

Lemma logDetails_shaped (event : value) :
  shaped event = true ->
  logDetails host event
  = if validTime (nmul (timeOf (decode event)) (Fin 1000)) then Normal tt
    else Throw RangeError.
Proof.
  intros H. unfold logDetails, timeOf. rewrite (Get_timestamp_shaped _ H).
  now destruct (timestamp (decode event)).
Qed.

Lemma mapM_names_shaped (events : list value) :
  forallb shaped events = true ->
  exists l, mapM (fun e => name <- Get e "name" ;; ToPropertyKey host name) events
            = Normal l.
Proof.
  induction events as [|v events IH]; simpl; [now eexists|]. intros H.
  apply andb_true_iff in H as [Hv H]. destruct (IH H) as (l & ->).
  rewrite (Get_name_shaped _ Hv). destruct (name (decode v)); simpl; now eexists.
Qed.

Lemma mapM_logDetails_shaped (s : string) (events : list value) :
  forallb shaped events = true ->
  match mapM (logDetails host) (filter (nameIs s) events) with
  | Normal _ =>
      forall event, In event events -> name (decode event) = Some s ->
                    validTime (nmul (timeOf (decode event)) (Fin 1000)) = true
  | Throw e =>
      e = RangeError
      /\ exists event, In event events /\ name (decode event) = Some s
                       /\ validTime (nmul (timeOf (decode event)) (Fin 1000)) = false
  end.
Proof.
  induction events as [|v events IH]; simpl; [easy|]. intros H.
  apply andb_true_iff in H as [Hv H]. specialize (IH H).
  rewrite (nameIs_shaped _ _ Hv).
  destruct (name (decode v)) as [n|] eqn:En.
  - destruct (String.eqb_spec n s) as [->|Hne].
    + simpl. rewrite (logDetails_shaped _ Hv).
      destruct (validTime _) eqn:Ev; cbn [bind].
      * destruct (mapM _ _); cbn [bind].
        -- intros event [<-|Hin] He; [easy|now apply IH].
        -- destruct IH as [-> (event & Hin & He)]. split; [easy|].
           exists event. split; [now right|easy].
      * split; [easy|]. exists v. split; [now left|]. now split.
    + destruct (mapM _ _).
      * intros event [<-|Hin] He; [congruence|now apply IH].
      * destruct IH as [-> (event & Hin & He)]. split; [easy|].
        exists event. split; [now right|easy].
  - destruct (mapM _ _).
    + intros event [<-|Hin] He; [congruence|now apply IH].
    + destruct IH as [-> (event & Hin & He)]. split; [easy|].
      exists event. split; [now right|easy].
Qed.

Lemma detailed_cases (e : Event) :
  detailed e = true <->
  name e = Some "MyCustomEvent" \/ name e = Some "MyCustomWishlistEvent".
Proof.
  unfold detailed. destruct (name e) as [n|].
  - rewrite orb_true_iff, !String.eqb_eq. split; intros [H|H]; [left|right|left|right];
      congruence.
  - split; [easy|]. intros [H|H]; discriminate.
Qed.

(** The logging block on events of the documented shape: it raises a
    [RangeError] when an event it prints in detail has no valid time, and
    nothing otherwise. *)
Lemma logRequest_shaped (events : list value) :
  forallb shaped events = true ->
  logRequest host (VArr events)
  = if forallb loggable (map decode events) then Normal tt else Throw RangeError.
Proof.
  intros H. unfold logRequest. cbn [iterate bind].
  destruct (mapM_names_shaped _ H) as (l & ->). cbn [bind].
  pose proof (mapM_logDetails_shaped "MyCustomEvent" _ H) as H1.
  pose proof (mapM_logDetails_shaped "MyCustomWishlistEvent" _ H) as H2.
  destruct (forallb loggable (map decode events)) eqn:El.
  - rewrite forallb_forall in El.
    assert (Hok : forall event, In event events -> detailed (decode event) = true ->
                    validTime (nmul (timeOf (decode event)) (Fin 1000)) = true).
    { intros event Hin Hd. specialize (El _ (in_map decode _ _ Hin)).
      unfold loggable in El. now rewrite Hd in El. }
    destruct (mapM _ (filter (nameIs "MyCustomEvent") events)); cbn [bind].
    + destruct (mapM _ (filter (nameIs "MyCustomWishlistEvent") events)); cbn [bind];
        [reflexivity|].
      destruct H2 as [_ (event & Hin & He & Hv)].
      rewrite (Hok event Hin) in Hv; [discriminate|]. apply detailed_cases. now right.
    + destruct H1 as [_ (event & Hin & He & Hv)].
      rewrite (Hok event Hin) in Hv; [discriminate|]. apply detailed_cases. now left.
  - destruct (mapM _ (filter (nameIs "MyCustomEvent") events)); cbn [bind];
      [|now destruct H1 as [-> _]].
    destruct (mapM _ (filter (nameIs "MyCustomWishlistEvent") events)); cbn [bind];
      [|now destruct H2 as [-> _]].
    exfalso. assert (Hall : forallb loggable (map decode events) = true);
      [|now rewrite Hall in El].
    apply forallb_forall. intros e He. apply in_map_iff in He as (event & <- & Hin).
    unfold loggable. destruct (detailed (decode event)) eqn:Hd; [|reflexivity].
    apply detailed_cases in Hd as [Hd|Hd]; simpl; [now apply H1|now apply H2].
Qed.

End Logging.

Lemma length_firstSeen (seen l : list string) :
  (List.length (firstSeen seen l) <= List.length l)%nat.
Proof.
  revert seen. induction l as [|k l IH]; intros seen; simpl; [easy|].
  destruct ((k =? "__proto__") || mem k seen).
  - specialize (IH seen). lia.
  - simpl. specialize (IH (seen ++ [k])). lia.
Qed.

(** What the accumulator holds for a key after it was fed contributions none
    of which is negative. *)
Lemma feed_scores (kcs : list (string * number)) (x : string) (s : jsval) :
  Forall (fun kc => notNegative (snd kc)) kcs ->
  In (x, s) (feed [] kcs) ->
  In x (map fst kcs)
  /\ if mem x Object_prototype_keys then s = JText
     else exists c, s = JNumber c /\ notNegative c.
Proof.
  intros Hpos Hin.
  assert (Hnd : NoDup (keys (feed [] kcs))) by (apply NoDup_keys_feed; constructor).
  assert (Hk : In x (keys (feed [] kcs))) by now apply (in_map fst) in Hin.
  apply In_keys_feed in Hk as [[]|[Hk Hx]]. split; [easy|].
  apply (In_lookup _ _ _ Hnd) in Hin.
  assert (E : GetProperty (feed [] kcs) x = s) by (unfold GetProperty; now rewrite Hin).
  rewrite (GetProperty_feed _ _ _ Hx) in E. rewrite <- E.
  unfold GetProperty. cbn [lookup].
  pose proof (contributionsTo_nonempty _ _ Hk) as Hne.
  destruct (mem x Object_prototype_keys).
  - apply value_after_text; [now left|easy].
  - apply value_after_positive; [now left| |easy].
    unfold contributionsTo. apply Forall_forall. intros c Hc.
    apply in_map_iff in Hc as (kc & <- & Hc). apply filter_In in Hc as [Hc _].
    rewrite Forall_forall in Hpos. now apply Hpos.
Qed.

Lemma In_rank (st : object * list value) (limit : Z) (e : string * jsval) :
  In e (slice (rank st) limit) -> In e (fst st).
Proof.
  destruct st as [o p]. intros Hin. apply slice_incl in Hin.
  apply (Permutation_in _ (rank_perm o p)) in Hin. now apply filter_In in Hin.
Qed.

Section Recommend.

Variable host : Host.

(** X10. On events of the documented shape, the score of a ranked identifier is
    a text when the identifier is the name of a member of [Object.prototype];
    otherwise it is [NaN], [Infinity] or a number that is not negative. It
    is never negative (the weight -100 of a purchase is never applied), and
    it can be 0 (an event old enough) and [Infinity] (an event stamped far
    enough ahead). *)
Theorem ranked_scores (now : Z) (events : list value) (limit : Z)
    (ranked : list (string * jsval)) (x : string) (s : jsval) :
  forallb shaped events = true ->
  scoreEvents host now events limit = Normal ranked ->
  In (x, s) ranked ->
  if mem x Object_prototype_keys then s = JText
  else exists c, s = JNumber c /\ notNegative c.
Proof.
  intros Hshaped Hranked Hin.
  rewrite (scoreEvents_shaped _ _ _ _ Hshaped) in Hranked. injection Hranked as <-.
  apply In_rank in Hin. rewrite fold_step in Hin. simpl in Hin.
  now apply feed_scores in Hin as [_ Hs]; [|apply contributions_positive].
Qed.

(** The handler on a POST whose events are of the documented shape, once the
    logging block has passed. *)
Lemma handler_shaped (now : Z) (req : request) (payload : value)
    (events : list value) :
  method req = "POST" ->
  body req = Parsed payload ->
  Get payload "events" = Normal (VArr events) ->
  forallb shaped events = true ->
  handler host now req
  = if forallb loggable (map decode events)
    then let ranked := slice (rank (fold_left (step now) (map decode events) ([], [])))
                         (requestedItemsOf (query req)) in
         {| invoked := Some (events, requestedItemsOf (query req));
            result := if forallb isScore ranked
                      then Respond 200 (JSON_stringify (map fst ranked))
                      else Crash TypeError |}
    else {| invoked := None; result := Crash RangeError |}.
Proof.
  intros Hm Hb Hget Hshaped. unfold handler, readEvents.
  rewrite Hm, Hb, Hget. cbn [String.eqb Ascii.eqb Bool.eqb andb negb ToBoolean].
  rewrite (logRequest_shaped _ _ Hshaped).
  destruct (forallb loggable (map decode events)); [|reflexivity].
  rewrite (scoreEvents_shaped _ _ _ _ Hshaped), mapM_logScore. cbn zeta.
  now destruct (forallb isScore _).
Qed.

(** X11. A POST whose events are of the documented shape, where every event that
    the log prints in detail has a valid time and no scored identifier is the
    name of a member of [Object.prototype], is answered 200 with the JSON text
    of the identifiers of the ranking that the engine returns for these events
    and the limit of the query, in the order of the ranking. *)
Theorem recommend_ok (now : Z) (req : request) (payload : value)
    (events : list value) :
  method req = "POST" ->
  body req = Parsed payload ->
  Get payload "events" = Normal (VArr events) ->
  forallb shaped events = true ->
  forallb loggable (map decode events) = true ->
  (forall x, In x (scoredIds (map decode events)) ->
             mem x Object_prototype_keys = false) ->
  exists ranked,
    scoreEvents host now events (requestedItemsOf (query req)) = Normal ranked
    /\ handler host now req
       = {| invoked := Some (events, requestedItemsOf (query req));
            result := Respond 200 (JSON_stringify (map fst ranked)) |}.
Proof.
  intros Hm Hb Hget Hshaped Hlog Hids. eexists.
  split; [now apply scoreEvents_shaped|].
  rewrite (handler_shaped _ _ _ _ Hm Hb Hget Hshaped), Hlog. cbn zeta.
  match goal with
  | |- context [forallb isScore ?l] => assert (E : forallb isScore l = true)
  end; [|now rewrite E].
  apply forallb_forall. intros [x s] Hin. apply In_rank in Hin.
  rewrite fold_step in Hin. simpl in Hin.
  apply feed_scores in Hin as [Hx Hs]; [|apply contributions_positive].
  rewrite map_fst_contributions in Hx. rewrite (Hids _ Hx) in Hs.
  destruct Hs as (c & -> & _). reflexivity.
Qed.

(** X12. A POST whose events are of the documented shape and pass the logging
    block makes the handler raise a [TypeError], after the engine returned, when
    an identifier that is scored and not purchased is the name of a member of
    [Object.prototype] other than "__proto__", and the limit cuts nothing off:
    the score of this identifier is a text, which has no [toFixed]. *)
Theorem inherited_id_crashes (now : Z) (req : request) (payload : value)
    (events : list value) (x : string) :
  method req = "POST" ->
  body req = Parsed payload ->
  Get payload "events" = Normal (VArr events) ->
  forallb shaped events = true ->
  forallb loggable (map decode events) = true ->
  In x (scoredIds (map decode events)) ->
  ~ In x (purchasedIds (map decode events)) ->
  mem x Object_prototype_keys = true ->
  x <> "__proto__" ->
  (Z.of_nat (List.length (scoredIds (map decode events)))
   <= requestedItemsOf (query req))%Z ->
  handler host now req
  = {| invoked := Some (events, requestedItemsOf (query req));
       result := Crash TypeError |}.
Proof.
  intros Hm Hb Hget Hshaped Hlog Hin Hpur Hmem Hx Hlimit.
  rewrite (handler_shaped _ _ _ _ Hm Hb Hget Hshaped), Hlog. cbn zeta.
  rewrite fold_step. cbn [app].
  set (kcs := contributions now (map decode events)).
  set (purchased := map VStr (purchasedIds (map decode events))).
  assert (Hnd : NoDup (keys (feed [] kcs))) by (apply NoDup_keys_feed; constructor).
  assert (Hlen : (List.length (rank (feed [] kcs, purchased))
                  <= List.length (scoredIds (map decode events)))%nat).
  { rewrite (Permutation_length (rank_perm _ _)).
    etransitivity; [apply filter_length_le|].
    rewrite <- (length_map fst). fold (keys (feed [] kcs)).
    rewrite keys_feed. cbn [keys map app]. unfold kcs.
    rewrite map_fst_contributions. apply length_firstSeen. }
  rewrite slice_all by lia.
  assert (E : forallb isScore (rank (feed [] kcs, purchased)) = false); [|now rewrite E].
  destruct (forallb isScore (rank (feed [] kcs, purchased))) eqn:E; [|reflexivity].
  rewrite forallb_forall in E.
  assert (Hr : In x (map fst (rank (feed [] kcs, purchased)))).
  { apply ranked_ids; [easy|]. split; [|easy]. apply In_keys_feed. right.
    unfold kcs. now rewrite map_fst_contributions. }
  apply in_map_iff in Hr as ([k s] & Hk & Hr). simpl in Hk. subst k.
  specialize (E _ Hr).
  apply (Permutation_in _ (rank_perm _ _)) in Hr. apply filter_In in Hr as [Hr _].
  apply feed_scores in Hr as [_ Hs]; [|apply contributions_positive].
  rewrite Hmem in Hs. now subst s.
Qed.

(** X13. A POST whose events are of the documented shape makes the handler raise
    a [RangeError] before it calls the engine when an event named
    [MyCustomEvent] or [MyCustomWishlistEvent] has no timestamp, or one that is
    no valid time: the log line of its date raises. *)
Theorem custom_event_needs_time (now : Z) (req : request) (payload : value)
    (events : list value) (event : value) :
  method req = "POST" ->
  body req = Parsed payload ->
  Get payload "events" = Normal (VArr events) ->
  forallb shaped events = true ->
  In event events ->
  detailed (decode event) = true ->
  validTime (nmul (timeOf (decode event)) (Fin 1000)) = false ->
  handler host now req = {| invoked := None; result := Crash RangeError |}.
Proof.
  intros Hm Hb Hget Hshaped Hin Hd Hv.
  rewrite (handler_shaped _ _ _ _ Hm Hb Hget Hshaped).
  destruct (forallb loggable (map decode events)) eqn:E; [|reflexivity].
  rewrite forallb_forall in E. specialize (E _ (in_map decode _ _ Hin)).
  unfold loggable in E. now rewrite Hd, Hv in E.
Qed.

Lemma mapM_names_chars (l : list ascii) :
  exists names,
    mapM (fun e => name <- Get e "name" ;; ToPropertyKey host name)
      (map (fun c => VStr (String c EmptyString)) l) = Normal names.
Proof.
  induction l as [|c l (names & IH)]; simpl; [now eexists|].
  rewrite IH. now eexists.
Qed.

(** X14. What the handler makes of [payload.events]: a falsy value (absent,
    [null], [false], 0, the empty string) is a request without events, which is
    answered 200 with [[]]; a truthy value that is not an array makes the
    handler raise a [TypeError] before it calls the engine. *)
Theorem events_property (now : Z) (req : request) (payload events : value) :
  method req = "POST" ->
  body req = Parsed payload ->
  Get payload "events" = Normal events ->
  (ToBoolean events = false ->
   handler host now req
   = {| invoked := Some ([], requestedItemsOf (query req));
        result := Respond 200 "[]" |})
  /\ (ToBoolean events = true -> (forall l, events <> VArr l) ->
      handler host now req = {| invoked := None; result := Crash TypeError |}).
Proof.
  intros Hm Hb Hget. unfold handler, readEvents. rewrite Hm, Hb, Hget.
  cbn [String.eqb Ascii.eqb Bool.eqb andb negb]. split.
  - intros ->. cbn [logRequest iterate bind mapM filter].
    unfold scoreEvents. cbn [foldM bind]. unfold slice, rank.
    cbn [fst snd Object_entries indexProps flat_map fold_right map filter app sort].
    now rewrite firstn_nil.
  - intros -> Harr. destruct events as [| | b | r | s | l | props];
      try reflexivity; [|now elim (Harr l)].
    unfold logRequest. cbn [iterate bind].
    destruct (mapM_names_chars (list_ascii_of_string s)) as (names & ->). reflexivity.
Qed.

Lemma readEvents_None (b : parse_result) :
  readEvents b = None
  <-> b = SyntaxError \/ exists payload, b = Parsed payload /\ nullish payload = true.
Proof.
  unfold readEvents. destruct b as [|payload].
  - split; [now left|easy].
  - split.
    + intros H. right. exists payload. split; [easy|]. now destruct payload.
    + intros [H|(p & [= <-] & Hp)]; [discriminate|]. now destruct payload.
Qed.

(** Past the parsing of the body, a request ends in the answer 200 with the
    text of an array, or in an exception. *)
Lemma handler_post (now : Z) (req : request) (events : value) :
  method req = "POST" ->
  readEvents (body req) = Some events ->
  (exists ids, result (handler host now req) = Respond 200 (JSON_stringify ids))
  \/ exists e, result (handler host now req) = Crash e.
Proof.
  intros Hm Hr. unfold handler. rewrite Hm, Hr.
  cbn [String.eqb Ascii.eqb Bool.eqb andb negb].
  destruct (logRequest host events); [|right; now eexists].
  destruct events; try (right; now eexists). cbn [result].
  destruct (scoreEvents host now items _) as [ranked|]; [|right; now eexists].
  destruct (mapM logScore ranked); [left|right]; now eexists.
Qed.

(** X15. Which requests get which answer: 200 with [OK] exactly for [GET
    /health]; 405 exactly for every other request that is not a POST; 400
    exactly for a POST whose body is not JSON or is [null]. No request that is
    not a POST reaches the engine. *)
Theorem routing (now : Z) (req : request) :
  (result (handler host now req) = Respond 200 "OK"
   <-> method req = "GET" /\ url req = "/health")
  /\ ((exists text, result (handler host now req) = Respond 405 text)
      <-> method req <> "POST" /\ ~ (method req = "GET" /\ url req = "/health"))
  /\ ((exists text, result (handler host now req) = Respond 400 text)
      <-> method req = "POST"
          /\ (body req = SyntaxError
              \/ exists payload, body req = Parsed payload /\ nullish payload = true))
  /\ (method req <> "POST" -> invoked (handler host now req) = None).
Proof.
  rewrite <- readEvents_None.
  assert (Hhealth : method req = "GET" /\ url req = "/health" ->
                    handler host now req = stopped (Respond 200 "OK")).
  { intros [Hg Hu]. unfold handler. now rewrite Hg, Hu. }
  assert (Hother : method req <> "POST" ->
                   ~ (method req = "GET" /\ url req = "/health") ->
                   handler host now req = stopped (Respond 405 "")).
  { intros Hp Hh. unfold handler.
    destruct (String.eqb_spec (method req) "GET") as [Hg|Hg];
      destruct (String.eqb_spec (url req) "/health") as [Hu|Hu];
      destruct (String.eqb_spec (method req) "POST") as [Hp'|_]; tauto. }
  assert (Hbad : method req = "POST" -> readEvents (body req) = None ->
                 handler host now req = stopped (Respond 400 "[]")).
  { intros Hp Hr. unfold handler. now rewrite Hp, Hr. }
  destruct (String.eqb_spec (method req) "POST") as [Hp|Hp].
  - assert (Hg : ~ (method req = "GET" /\ url req = "/health"))
      by (intros [Hg _]; rewrite Hp in Hg; discriminate Hg).
    destruct (readEvents (body req)) as [events|] eqn:Er.
    + destruct (handler_post now req events Hp Er) as [(ids & E)|(e & E)]; rewrite E.
      * split; [split; [intros H; injection H as H; discriminate H|tauto]|].
        split; [split; [intros (text & H); discriminate H|tauto]|].
        split; [split; [intros (text & H); discriminate H|]|easy].
        intros [_ H]. discriminate H.
      * split; [split; [discriminate|tauto]|].
        split; [split; [intros (text & H); discriminate H|tauto]|].
        split; [split; [intros (text & H); discriminate H|]|easy].
        intros [_ H]. discriminate H.
    + rewrite (Hbad Hp eq_refl). cbn [stopped result invoked].
      split; [split; [discriminate|tauto]|].
      split; [split; [intros (text & H); discriminate H|tauto]|].
      split; [split; [easy|now exists "[]"]|easy].
  - destruct (String.eqb_spec (method req) "GET") as [Hg|Hg];
      [destruct (String.eqb_spec (url req) "/health") as [Hu|Hu]|].
    + rewrite (Hhealth (conj Hg Hu)). cbn [stopped result invoked].
      split; [easy|].
      split; [split; [intros (text & H); discriminate H|tauto]|].
      split; [split; [intros (text & H); discriminate H|tauto]|easy].
    + rewrite (Hother Hp) by tauto. cbn [stopped result invoked].
      split; [split; [discriminate|tauto]|].
      split; [split; [tauto|now exists ""]|].
      split; [split; [intros (text & H); discriminate H|tauto]|easy].
    + rewrite (Hother Hp) by tauto. cbn [stopped result invoked].
      split; [split; [discriminate|tauto]|].
      split; [split; [tauto|now exists ""]|].
      split; [split; [intros (text & H); discriminate H|tauto]|easy].
Qed.

End Recommend.

(** ** The limit of the query *)

Lemma digits_stop (rest : string) (acc : option Z) :
  noDigit rest = true -> digits 10 rest acc = acc.
Proof.
  destruct rest as [|c rest]; [easy|]. simpl.
  destruct (digitValue c) as [d|]; [|easy].
  now destruct (d <? 10)%Z.
Qed.

Lemma digits_step (c : ascii) (k : Z) (s : string) (a : Z) :
  digitValue c = Some k -> (k <? 10)%Z = true ->
  digits 10 (String c s) (Some a) = digits 10 s (Some (10 * a + k)%Z).
Proof. intros Hc Hk. cbn [digits]. now rewrite Hc, Hk. Qed.

Lemma digits_uint_acc (d : Decimal.uint) (rest : string) (p : BinNums.positive) :
  noDigit rest = true ->
  digits 10 (DecimalString.NilEmpty.string_of_uint d ++ rest) (Some (Z.pos p))
  = Some (Z.pos (Pos.of_uint_acc d p)).
Proof.
  intros Hrest. revert p.
  induction d as [|d IH|d IH|d IH|d IH|d IH|d IH|d IH|d IH|d IH|d IH]; intros p;
    [now apply digits_stop|..];
    cbn [DecimalString.NilEmpty.string_of_uint append Pos.of_uint_acc];
    rewrite <- IH;
    match goal with
    | |- digits _ (String ?c _) _ = _ =>
        let k := eval vm_compute in (Z.of_N (N_of_ascii c) - 48)%Z in
        rewrite (digits_step c k) by reflexivity
    end;
    match goal with
    | |- digits _ _ (Some ?a) = digits _ _ (Some ?b) => now replace a with b by lia
    end.
Qed.

Lemma digits_first (d : Decimal.uint) (rest : string) (acc : option Z) :
  noDigit rest = true ->
  d <> Decimal.Nil ->
  (forall l, d <> Decimal.D0 l) ->
  acc = None \/ acc = Some 0%Z ->
  digits 10 (DecimalString.NilEmpty.string_of_uint d ++ rest) acc
  = Some (Z.of_N (Pos.of_uint d)).
Proof.
  intros Hrest Hnil Hzero Hacc.
  destruct d as [|d|d|d|d|d|d|d|d|d|d]; [easy|now elim (Hzero d)|..];
    cbn [DecimalString.NilEmpty.string_of_uint append Pos.of_uint Z.of_N];
    rewrite <- (digits_uint_acc d rest _ Hrest);
    destruct Hacc as [-> | ->]; reflexivity.
Qed.

Lemma unorm_D0 (d l : Decimal.uint) :
  Decimal.unorm d = Decimal.D0 l -> l = Decimal.Nil.
Proof.
  induction d; try discriminate; [now intros [= <-]|exact IHd].
Qed.

(** The decimal text of a positive number begins with a digit from 1 to 9. *)
Lemma to_uint_first (p : BinNums.positive) :
  Pos.to_uint p <> Decimal.Nil /\ forall l, Pos.to_uint p <> Decimal.D0 l.
Proof.
  split; [apply DecimalPos.Unsigned.to_uint_nonnil|]. intros l E.
  pose proof (DecimalPos.Unsigned.to_of (Pos.to_uint p)) as H.
  rewrite DecimalPos.Unsigned.of_to in H. simpl in H. rewrite E in H.
  symmetry in H. apply unorm_D0 in H. subst l.
  now apply (DecimalPos.Unsigned.to_uint_nonzero p).
Qed.

Lemma parseInt_digits (s rest : string) (d : Decimal.uint) :
  s = DecimalString.NilEmpty.string_of_uint d ->
  d <> Decimal.Nil -> (forall l, d <> Decimal.D0 l) ->
  noDigit rest = true ->
  parseInt (s ++ rest) = Some (Z.of_N (Pos.of_uint d))
  /\ parseInt (String "-" (s ++ rest)) = Some (- Z.of_N (Pos.of_uint d))%Z.
Proof.
  intros -> Hnil Hzero Hrest.
  pose proof (digits_first d rest None Hrest Hnil Hzero (or_introl eq_refl)) as H.
  destruct d as [|d|d|d|d|d|d|d|d|d|d]; [easy|now elim (Hzero d)|..];
    unfold parseInt;
    cbn [DecimalString.NilEmpty.string_of_uint append trimStart isWhiteSpace
         N_of_ascii N.eqb orb] in *;
    cbn -[digits Pos.of_uint Z.of_N Z.mul Z.opp];
    cbn [DecimalString.NilEmpty.string_of_uint append] in H;
    rewrite H; split; f_equal; lia.
Qed.

(** [parseInt] reads back the decimal text of an integer other than 0,
    whatever follows it that does not begin with a digit. *)
Lemma parseInt_decimalText (n : Z) (rest : string) :
  n <> 0%Z -> noDigit rest = true -> parseInt (decimalText n ++ rest) = Some n.
Proof.
  intros Hn Hrest. unfold decimalText.
  destruct n as [|p|p]; [easy|..]; simpl Z.to_int;
    destruct (to_uint_first p) as [Hnil Hzero];
    destruct (parseInt_digits _ rest (Pos.to_uint p) eq_refl Hnil Hzero Hrest)
      as [Hpos Hneg];
    rewrite DecimalPos.Unsigned.of_to in *; simpl Z.of_N in *;
    cbn [DecimalString.NilZero.string_of_int].
  - replace (DecimalString.NilZero.string_of_uint (Pos.to_uint p))
      with (DecimalString.NilEmpty.string_of_uint (Pos.to_uint p)); [easy|].
    now destruct (Pos.to_uint p).
  - replace (DecimalString.NilZero.string_of_uint (Pos.to_uint p))
      with (DecimalString.NilEmpty.string_of_uint (Pos.to_uint p)); [easy|].
    now destruct (Pos.to_uint p).
Qed.

(** X16. Line 69 reads the limit off the decimal text of an integer other than 0
    that a double holds exactly: a [requestedItems] parameter that begins with
    this text, followed by nothing or by a character that is no digit, gives
    this integer as the limit, negative or not; when the parameter is repeated,
    the first value gives it. *)
Theorem requestedItems_decimal (q : query_value) (n : Z) (rest : string) :
  n <> 0%Z ->
  (Z.abs n <= 2 ^ 53)%Z ->
  noDigit rest = true ->
  queryText q = (decimalText n ++ rest)%string ->
  requestedItemsOf q = n.
Proof.
  intros Hn _ Hrest Hq. unfold requestedItemsOf.
  rewrite Hq, (parseInt_decimalText n rest Hn Hrest).
  now destruct (Z.eqb_spec n 0).
Qed.

(** ** Array indices *)

Lemma precedes_app {A : Type} (x y : A) (l1 l2 : list A) :
  In x l1 -> In y l2 -> precedes x y (l1 ++ l2).
Proof.
  intros Hx Hy. apply in_split in Hx as (a & b & ->).
  apply in_split in Hy as (c & d & ->). exists a, (b ++ c), d.
  now rewrite <- !app_assoc.
Qed.

Lemma precedes_total {A : Type} (x y : A) (l : list A) :
  In x l -> In y l -> x <> y -> precedes x y l \/ precedes y x l.
Proof.
  induction l as [|a l IH]; [easy|]. intros [->|Hx] [->|Hy] Hne.
  - easy.
  - left. now apply precedes_head.
  - right. now apply precedes_head.
  - destruct (IH Hx Hy Hne); [left|right]; now apply precedes_cons.
Qed.

Lemma insertIndex_sorted x l :
  StronglySorted (fun a b => (fst a <= fst b)%N) l ->
  StronglySorted (fun a b => (fst a <= fst b)%N) (insertIndex x l).
Proof.
  intros Hs. induction Hs as [|y l Hs IH Hy]; simpl.
  - constructor; constructor.
  - destruct (N.leb_spec (fst x) (fst y)) as [Hle|Hlt].
    + constructor; [now constructor|]. constructor; [easy|].
      apply (Forall_impl _ (P := fun b => (fst y <= fst b)%N)); [|easy].
      intros b Hb. lia.
    + constructor; [easy|].
      apply (Permutation_Forall (Permutation_sym (insertIndex_perm x l))).
      constructor; [lia|easy].
Qed.

Lemma sortIndex_sorted l :
  StronglySorted (fun a b => (fst a <= fst b)%N) (fold_right insertIndex [] l).
Proof.
  induction l as [|x l IH]; simpl; [constructor|]. now apply insertIndex_sorted.
Qed.

Lemma In_indexProps (o : object) (x : string) (s : jsval) (i : N) :
  In (x, s) o -> arrayIndex x = Some i -> In (i, (x, s)) (indexProps o).
Proof.
  intros Hin Hi. unfold indexProps. apply in_flat_map. exists (x, s).
  split; [easy|]. simpl. rewrite Hi. now left.
Qed.

(** [Object.entries] lists an array-index key before every key that is none
    and before every greater one. *)
Lemma Object_entries_index (o : object) (x y : string) (sx sy : jsval) :
  In (x, sx) o -> In (y, sy) o -> indexBefore x y ->
  precedes (x, sx) (y, sy) (Object_entries o).
Proof.
  intros Hx Hy. unfold indexBefore, Object_entries.
  destruct (arrayIndex x) as [i|] eqn:Ei; [|easy].
  pose proof (In_indexProps _ _ _ _ Hx Ei) as Hxi.
  apply (Permutation_in _ (Permutation_sym (sortIndex_perm (indexProps o)))) in Hxi.
  destruct (arrayIndex y) as [j|] eqn:Ej.
  - intros Hlt. pose proof (In_indexProps _ _ _ _ Hy Ej) as Hyj.
    apply (Permutation_in _ (Permutation_sym (sortIndex_perm (indexProps o)))) in Hyj.
    assert (Hne : (i, (x, sx)) <> (j, (y, sy))) by (intros [= -> _ _]; lia).
    destruct (precedes_total _ _ _ Hxi Hyj Hne) as [Hp|Hp].
    + apply (precedes_map snd) in Hp. simpl in Hp.
      destruct Hp as (l1 & l2 & l3 & ->). exists l1, l2, (l3 ++ filter
        (fun kv : string * jsval => negb (isArrayIndex (fst kv))) o).
      rewrite <- app_assoc. simpl. now rewrite <- app_assoc.
    + apply (StronglySorted_precedes _ _ _ _ (sortIndex_sorted (indexProps o))) in Hp.
      simpl in Hp. lia.
  - intros _. apply precedes_app.
    + now apply (in_map snd) in Hxi.
    + apply filter_In. split; [easy|]. unfold isArrayIndex. simpl. now rewrite Ej.
Qed.

Section IndexFirst.

Variable host : Host.

(** X17. Whatever the list of parsed values, when every accumulated score is a
    number (none is [NaN] or a text), of two ranked identifiers with the same
    score the one that is an array index stands before the one that is none, and
    a smaller array index before a greater one, in whatever order the loop met
    them: [Object.entries] lists the array-index keys first, in ascending order,
    and the sort is stable. *)
Theorem index_ids_first (now : Z) (events : list value) (limit : Z)
    (scores : object) (purchased : list value) (ranked : list (string * jsval))
    (x y : string) (r : R) :
  foldM (scoreEvent host now) events ([], []) = Normal (scores, purchased) ->
  scoreEvents host now events limit = Normal ranked ->
  (forall k v, In (k, v) scores -> exists r', v = JNumber (Fin r')) ->
  In (x, JNumber (Fin r)) ranked ->
  In (y, JNumber (Fin r)) ranked ->
  indexBefore x y ->
  precedes (x, JNumber (Fin r)) (y, JNumber (Fin r)) ranked.
Proof.
  intros Hst Hranked _ Hx Hy Hxy.
  unfold scoreEvents in Hranked. rewrite Hst in Hranked. cbn [bind] in Hranked.
  injection Hranked as <-.
  assert (Hnd : NoDup (keys scores)).
  { apply (foldM_scoreEvent_NoDup host now events ([], []) (scores, purchased));
      [constructor|exact Hst]. }
  pose proof (rank_perm scores purchased) as Hp.
  assert (Hin : forall e, In e (slice (rank (scores, purchased)) limit) ->
                          In e scores /\ notPurchased purchased e = true).
  { intros e H. apply slice_incl in H. apply (Permutation_in _ Hp) in H.
    now apply filter_In in H. }
  destruct (Hin _ Hx) as [Hxs Hxp]. destruct (Hin _ Hy) as [Hys Hyp].
  unfold slice in *. apply (precedes_firstn fst); [|  |easy].
  - apply (Permutation_NoDup (Permutation_sym (Permutation_map fst Hp))).
    now apply NoDup_keys_filter.
  - unfold rank. apply sort_stable; [|apply positive_tie].
    apply precedes_filter; [|easy|easy].
    now apply Object_entries_index.
Qed.

End IndexFirst.

(** ** Concrete runs *)

Lemma contribution_week (n : string) (ids : list string) (w : R) :
  weightOf (fresh n ids) = JNumber (Fin w) ->
  contributionOf clock (weekEarlier (fresh n ids)) = Fin (w * (1 / 2)).
Proof.
  intros Hw. unfold contributionOf, timeOf.
  change (weightOf (weekEarlier (fresh n ids))) with (weightOf (fresh n ids)).
  rewrite Hw. cbn [timestamp weekEarlier fresh option_map].
  rewrite recency_week. apply weight_range in Hw.
  pose proof huge_bound. pose proof tiny_bound.
  unfold times. cbn [toNumber nmul]. apply clip_Fin; lra.
Qed.

Lemma validTime_clock : validTime (nmul (Fin (IZR clock)) (Fin 1000)) = true.
Proof.
  pose proof huge_bound. pose proof tiny_bound.
  cbn [nmul]. rewrite clip_Fin by (unfold clock; lra). cbn [validTime].
  destruct (Rle_dec _ _) as [|Hn]; [reflexivity|].
  exfalso. apply Hn. unfold clock. rewrite Rabs_right; lra.
Qed.

Lemma loggable_fresh (n : string) (ids : list string) : loggable (fresh n ids) = true.
Proof.
  unfold loggable. change (timeOf (fresh n ids)) with (Fin (IZR clock)).
  rewrite validTime_clock. apply orb_true_r.
Qed.

Lemma scenarioC_state :
  on_every_host (fun host =>
    foldM (scoreEvent host clock) (map encode scenarioC) ([], [])
    = Normal ([("p1", JNumber (Fin (0 + 10 * 1))); ("p2", JNumber (Fin (0 + 5 * 1)))], [])).
Proof.
  intros host. unfold scenarioC. run_loop.
  rewrite (contribution_fresh "ProductAddToCart" ["p1"] 10 eq_refl).
  rewrite (contribution_fresh "ProductDetailsView" ["p2"] 5 eq_refl).
  unfold feed. now decide_reals.
Qed.

Lemma scenarioD_contributions :
  contributionsTo "p1" (contributions clock scenarioD)
  = [Fin (10 * 1); Fin (5 * (1 / 2))].
Proof.
  unfold scenarioD, contributions, contributionsTo.
  cbn [flat_map isPurchase name fresh weekEarlier String.eqb Ascii.eqb Bool.eqb idsOf
       productIds map app filter fst snd].
  rewrite (contribution_fresh "ProductAddToCart" ["p1"] 10 eq_refl).
  rewrite (contribution_week "ProductDetailsView" ["p1"] 5 eq_refl).
  reflexivity.
Qed.

Lemma undated_state :
  on_every_host (fun host =>
    foldM (scoreEvent host clock) (map encode [undated "ProductDetailsView" ["p1"]])
      ([], [])
    = Normal ([("p1", JNumber NaN)], [])).
Proof.
  intros host. rewrite foldM_scoreEvent_encode, fold_step. reflexivity.
Qed.

Lemma fresh_contributions :
  contributionsTo "p1" (contributions clock [fresh "ProductAddToCart" ["p1"]])
  = [Fin (10 * 1)].
Proof.
  unfold contributions, contributionsTo.
  cbn [flat_map isPurchase name fresh String.eqb Ascii.eqb Bool.eqb idsOf
       productIds map app filter fst snd].
  now rewrite (contribution_fresh "ProductAddToCart" ["p1"] 10 eq_refl).
Qed.

Lemma protoId_ranked :
  on_every_host (fun host =>
    scoreEvents host clock (map encode protoId) 3
    = Normal [("p1", JNumber (Fin (0 + 10 * 1)))]).
Proof.
  intros host. unfold protoId. run_loop.
  rewrite (contribution_fresh "ProductAddToCart" ["__proto__"; "p1"] 10 eq_refl).
  unfold feed. now decide_reals.
Qed.

Lemma inheritedId_ranked :
  on_every_host (fun host =>
    scoreEvents host clock (map encode inheritedId) 3
    = Normal [("toString", JText); ("p1", JNumber (Fin (0 + 10 * 1)))]).
Proof.
  intros host. unfold inheritedId. run_loop.
  rewrite (contribution_fresh "ProductAddToCart" ["toString"; "p1"] 10 eq_refl).
  unfold feed. decide_reals. reflexivity.
Qed.

Lemma mixedIds_state :
  on_every_host (fun host =>
    foldM (scoreEvent host clock) (map encode mixedIds) ([], [])
    = Normal ([("b", JNumber (Fin (0 + 5 * 1))); ("10", JNumber (Fin (0 + 5 * 1)));
               ("9", JNumber (Fin (0 + 5 * 1)))], [])
    /\ scoreEvents host clock (map encode mixedIds) 3
       = Normal [("9", JNumber (Fin (0 + 5 * 1))); ("10", JNumber (Fin (0 + 5 * 1)));
                 ("b", JNumber (Fin (0 + 5 * 1)))]).
Proof.
  intros host. unfold mixedIds. run_loop.
  rewrite (contribution_fresh "ProductDetailsView" ["b"; "10"; "9"] 5 eq_refl).
  unfold feed. split.
  - now decide_reals.
  - decide_reals. reflexivity.
Qed.

(** ** The properties above, at concrete requests *)

(** [ranking_entries] on the event that carries "a" and "b". *)
Lemma ranking_entries_witness :
  on_every_host (fun host =>
    let ranked := [("a", JNumber (Fin (0 + 5 * 1))); ("b", JNumber (Fin (0 + 5 * 1)))] in
    NoDup (map fst ranked)
    /\ (forall x s, In (x, s) ranked -> lookup x ranked = Some s /\ ~ In (VStr x) [])
    /\ ((0 <= 3)%Z -> (Z.of_nat (List.length ranked) <= 3)%Z)).
Proof.
  intros host. destruct (namedIds_state host) as [Hst Hranked].
  exact (ranking_entries host clock (map encode namedIds) 3 _ _ _ Hst Hranked).
Defined.

(** [ranking_descending] on scenario C: 10 stands before 5. *)
Lemma ranking_descending_witness :
  on_every_host (fun host => (0 + 5 * 1 <= 0 + 10 * 1)%R).
Proof.
  intros host.
  apply (ranking_descending host clock (map encode scenarioC) 3 _ _ _ "p1" "p2" _ _
           (scenarioC_state host) (scenarioC_ranked 3 host)).
  - intros k v [[= <- <-]|[[= <- <-]|[]]]; now eexists.
  - now exists [], [], [].
Defined.

(** [score_untouched]: a purchase of [p1] leaves the score of [p1] as it
    was. *)
Lemma score_untouched_witness :
  on_every_host (fun host =>
    exists st',
      scoreEvent host clock ([], []) (encode (fresh "Purchase" ["p1"])) = Normal st'
      /\ GetProperty (fst st') "p1" = GetProperty [] "p1").
Proof.
  intros host.
  apply (score_untouched host clock ([], []) (encode (fresh "Purchase" ["p1"])) "p1").
  - reflexivity.
  - discriminate.
  - left. reflexivity.
Defined.

(** [score_is_sum] on scenario D: 10 * 1 + 5 * 0.5. *)
Lemma score_is_sum_witness :
  on_every_host (fun host =>
    exists scores purchased,
      foldM (scoreEvent host clock) (map encode scenarioD) ([], [])
      = Normal (scores, purchased)
      /\ GetProperty scores "p1" = JNumber (Fin (0 + 10 * 1 + 5 * (1 / 2)))).
Proof.
  intros host.
  pose proof (score_is_sum host clock (map encode scenarioD) "p1") as W.
  rewrite decode_encode_all, scenarioD_contributions in W.
  assert (E : total [Fin (10 * 1); Fin (5 * (1 / 2))]
              = Fin (0 + 10 * 1 + 5 * (1 / 2)))
    by (unfold total; now decide_reals).
  rewrite E in W. apply W.
  - apply shaped_encode_all.
  - reflexivity.
  - now left.
  - intros c [<-|[<-|[]]]; now eexists.
Defined.

(** [nan_is_forgotten]: a view without a timestamp, then an addition to the
    cart stamped now. *)
Lemma nan_is_forgotten_witness :
  on_every_host (fun host =>
    exists scores purchased,
      foldM (scoreEvent host clock)
        (map encode [undated "ProductDetailsView" ["p1"]]
         ++ map encode [fresh "ProductAddToCart" ["p1"]]) ([], [])
      = Normal (scores, purchased)
      /\ GetProperty scores "p1" = JNumber (Fin (0 + 10 * 1))).
Proof.
  intros host.
  pose proof (nan_is_forgotten host clock
                (map encode [undated "ProductDetailsView" ["p1"]])
                (map encode [fresh "ProductAddToCart" ["p1"]]) "p1" _ _
                (shaped_encode_all _) (shaped_encode_all _) (undated_state host) eq_refl)
    as W.
  rewrite decode_encode_all, fresh_contributions in W.
  assert (E : total [Fin (10 * 1)] = Fin (0 + 10 * 1))
    by (unfold total; now decide_reals).
  rewrite E in W. apply W.
  - now left.
  - intros c [<-|[]]. now eexists.
Defined.

(** [proto_never_ranked] on an event that carries "__proto__" and [p1]. *)
Lemma proto_never_ranked_witness :
  on_every_host (fun host =>
    ~ In "__proto__" (map fst [("p1", JNumber (Fin (0 + 10 * 1)))])).
Proof.
  intros host.
  exact (proto_never_ranked host clock (map encode protoId) 3 _ (protoId_ranked host)).
Defined.

(** [ranked_scores] on an event that carries "toString" and [p1]. *)
Lemma ranked_scores_witness :
  on_every_host (fun host =>
    JText = JText
    /\ exists c, JNumber (Fin (0 + 10 * 1)) = JNumber c /\ notNegative c).
Proof.
  intros host. split.
  - apply (ranked_scores host clock (map encode inheritedId) 3 _ "toString" JText
             (shaped_encode_all _) (inheritedId_ranked host)).
    now left.
  - apply (ranked_scores host clock (map encode inheritedId) 3 _ "p1" _
             (shaped_encode_all _) (inheritedId_ranked host)).
    right. now left.
Defined.

(** [engine_raises] on a purchase whose [productIds] is a string. *)
Lemma engine_raises_witness :
  on_every_host (fun host =>
    scoreEvents host clock [stringIds] 3 = Throw TypeError /\ TypeError = TypeError).
Proof.
  intros host. split; [reflexivity|].
  apply (engine_raises host clock [stringIds] 3 TypeError). reflexivity.
Defined.

(** [nullish_event_raises]: [null] after an event. *)
Lemma nullish_event_raises_witness :
  on_every_host (fun host =>
    scoreEvents host clock [encode (fresh "ProductAddToCart" ["p1"]); VNull] 3
    = Throw TypeError).
Proof.
  intros host.
  apply (nullish_event_raises host clock _ 3 VNull).
  - right. now left.
  - reflexivity.
Defined.

(** [recommend_ok] on two events that the log prints in detail. *)
Lemma recommend_ok_witness :
  on_every_host (fun host =>
    exists ranked,
      scoreEvents host clock (map encode customEvents) 1 = Normal ranked
      /\ handler host clock (postEvents (VArr (map encode customEvents)) (QString "1"))
         = {| invoked := Some (map encode customEvents, 1%Z);
              result := Respond 200 (JSON_stringify (map fst ranked)) |}).
Proof.
  intros host.
  apply (recommend_ok host clock
           (postEvents (VArr (map encode customEvents)) (QString "1"))
           (VObj [("events", VArr (map encode customEvents))])
           (map encode customEvents) eq_refl eq_refl eq_refl (shaped_encode_all _)).
  - rewrite decode_encode_all. unfold customEvents. cbn [forallb].
    now rewrite !loggable_fresh.
  - rewrite decode_encode_all. intros x [<-|[<-|[]]]; reflexivity.
Defined.

(** [inherited_id_crashes] on an event that carries "toString". *)
Lemma inherited_id_crashes_witness :
  on_every_host (fun host =>
    handler host clock (postEvents (VArr (map encode inheritedId)) QAbsent)
    = {| invoked := Some (map encode inheritedId, 3%Z); result := Crash TypeError |}).
Proof.
  intros host.
  apply (inherited_id_crashes host clock
           (postEvents (VArr (map encode inheritedId)) QAbsent)
           (VObj [("events", VArr (map encode inheritedId))])
           (map encode inheritedId) "toString"
           eq_refl eq_refl eq_refl (shaped_encode_all _));
    rewrite ?decode_encode_all.
  - unfold inheritedId. cbn [forallb]. now rewrite loggable_fresh.
  - now left.
  - intros [].
  - reflexivity.
  - discriminate.
  - now vm_compute.
Defined.

(** [custom_event_needs_time] on a [MyCustomEvent] without a timestamp. *)
Lemma custom_event_needs_time_witness :
  on_every_host (fun host =>
    handler host clock
      (postEvents (VArr [encode (undated "MyCustomEvent" ["p1"])]) QAbsent)
    = {| invoked := None; result := Crash RangeError |}).
Proof.
  intros host.
  apply (custom_event_needs_time host clock
           (postEvents (VArr [encode (undated "MyCustomEvent" ["p1"])]) QAbsent)
           (VObj [("events", VArr [encode (undated "MyCustomEvent" ["p1"])])])
           [encode (undated "MyCustomEvent" ["p1"])]
           (encode (undated "MyCustomEvent" ["p1"]))
           eq_refl eq_refl eq_refl eq_refl).
  - now left.
  - reflexivity.
  - reflexivity.
Defined.

(** [events_property]: [{ events: "p1" }] and [{ events: false }]. *)
Lemma events_property_witness :
  on_every_host (fun host =>
    handler host clock (postEvents (VStr "p1") QAbsent)
    = {| invoked := None; result := Crash TypeError |}
    /\ handler host clock (postEvents (VBool false) QAbsent)
       = {| invoked := Some ([], 3%Z); result := Respond 200 "[]" |}).
Proof.
  intros host. split.
  - apply (proj2 (events_property host clock (postEvents (VStr "p1") QAbsent)
                    (VObj [("events", VStr "p1")]) (VStr "p1")
                    eq_refl eq_refl eq_refl)); [reflexivity|discriminate].
  - apply (proj1 (events_property host clock (postEvents (VBool false) QAbsent)
                    (VObj [("events", VBool false)]) (VBool false)
                    eq_refl eq_refl eq_refl)). reflexivity.
Defined.

(** [requestedItems_decimal]: [?requestedItems=-2&requestedItems=7]. *)
Lemma requestedItems_decimal_witness :
  requestedItemsOf (QArray ["-2"; "7"]) = (-2)%Z.
Proof.
  apply (requestedItems_decimal (QArray ["-2"; "7"]) (-2) ",7").
  - discriminate.
  - now vm_compute.
  - reflexivity.
  - reflexivity.
Defined.

(** [index_ids_first]: met in the order "b", "10", "9", the three tie and
    are ranked "9", "10", "b". *)
Lemma index_ids_first_witness :
  on_every_host (fun host =>
    let ranked := [("9", JNumber (Fin (0 + 5 * 1))); ("10", JNumber (Fin (0 + 5 * 1)));
                   ("b", JNumber (Fin (0 + 5 * 1)))] in
    precedes ("9", JNumber (Fin (0 + 5 * 1))) ("10", JNumber (Fin (0 + 5 * 1))) ranked
    /\ precedes ("10", JNumber (Fin (0 + 5 * 1))) ("b", JNumber (Fin (0 + 5 * 1))) ranked).
Proof.
  intros host. destruct (mixedIds_state host) as [Hst Hranked].
  assert (Hnum : forall k v,
             In (k, v) [("b", JNumber (Fin (0 + 5 * 1))); ("10", JNumber (Fin (0 + 5 * 1)));
                        ("9", JNumber (Fin (0 + 5 * 1)))] ->
             exists r', v = JNumber (Fin r'))
    by (intros k v [[= <- <-]|[[= <- <-]|[[= <- <-]|[]]]]; now eexists).
  split.
  - apply (index_ids_first host clock (map encode mixedIds) 3 _ _ _ "9" "10" _
             Hst Hranked Hnum).
    + now left.
    + right. now left.
    + reflexivity.
  - apply (index_ids_first host clock (map encode mixedIds) 3 _ _ _ "10" "b" _
             Hst Hranked Hnum).
    + right. now left.
    + right. right. now left.
    + exact I.
Defined.
